(** * Subscription service: a shallow embedding of the Go sources

    The development follows the packages of the repository:

    - [GoInt]: Go's [int] on the 64-bit build target, as [Z] with the
      wrap-around of [+], [-] and [*] written out;
    - [time.Time] values as calendar dates ([Year], [Month], [Day],
      [Before], [After]);
    - [internal/domain/subscription]: the records and [ErrNotFound];
    - [internal/lib/uuid]: [Parse] over byte strings, with UTF-8 decoding
      as [range] and [strings.ToLower] perform it;
    - [internal/storage/postgresql]: the statements of the storage
      adapter, evaluated on a table keyed by the primary key;
    - [internal/services/subscriptions]: the service operations over an
      abstract [Repository], with the records they log.

    Definitions come first, theorems after them. *)

From Stdlib Require Import ZArith Lia List Bool String Ascii.
From stdpp Require Import base decidable option list gmap strings sorting.
Import ListNotations.

Local Open Scope Z_scope.

(** ** Go's [int] (64 bits on every target the Dockerfile builds for) *)

Module GoInt.

Definition min_int : Z := - 2 ^ 63.
Definition max_int : Z := 2 ^ 63 - 1.

Definition in_range (z : Z) : Prop := min_int <= z <= max_int.

(** Two's-complement reduction of an exact result to 64 bits. *)
Definition wrap (z : Z) : Z := (z + 2 ^ 63) mod 2 ^ 64 - 2 ^ 63.

Definition add (a b : Z) : Z := wrap (a + b).
Definition sub (a b : Z) : Z := wrap (a - b).
Definition mul (a b : Z) : Z := wrap (a * b).

End GoInt.

(** ** [time.Time]

    The month values of this program are calendar dates at midnight UTC:
    [time.Parse] with [MonthLayout] and the scan of a [DATE] column produce
    nothing else.  A value carries its year, month and day in the proleptic
    Gregorian calendar; the bound on the year over-approximates what an
    [int64] count of seconds can reach. *)

Definition is_leap (y : Z) : bool :=
  ((y mod 4 =? 0) && negb (y mod 100 =? 0)) || (y mod 400 =? 0).

Definition daysIn (m y : Z) : Z :=
  if m =? 2 then (if is_leap y then 29 else 28)
  else if (m =? 4) || (m =? 6) || (m =? 9) || (m =? 11) then 30
  else 31.

Definition year_bound : Z := 2 ^ 40.

Definition valid_date (y m d : Z) : bool :=
  (- year_bound <? y) && (y <? year_bound)
  && (1 <=? m) && (m <=? 12)
  && (1 <=? d) && (d <=? daysIn m y).

Record Time : Type := Date {
  Year : Z;
  Month : Z;
  Day : Z;
  Date_valid : valid_date Year Month Day = true
}.

(** [t.Before(u)]: the instant [t] is strictly earlier than [u]. *)
Definition Before (t u : Time) : bool :=
  (Year t <? Year u)
  || ((Year t =? Year u)
      && ((Month t <? Month u)
          || ((Month t =? Month u) && (Day t <? Day u)))).

(** [t.After(u)]: the instant [t] is strictly later than [u]. *)
Definition After (t u : Time) : bool := Before u t.

(** The calendar month of a value, as one number. *)
Definition month_index (t : Time) : Z := Year t * 12 + (Month t - 1).

Definition same_month (t u : Time) : Prop :=
  Year t = Year u /\ Month t = Month u.

(** ** Errors

    [Wrapf op err] is [fmt.Errorf("%s: %w", op, err)]; [PqError] stands for
    what the driver or the server reports. *)

Inductive error : Type :=
| ErrNotFound                       (* domain.ErrNotFound *)
| ErrNoRows                         (* sql.ErrNoRows *)
| ErrInvalidUUID                    (* uuid.ErrInvalidUUID *)
| PqError (msg : string)
| Wrapf (op : string) (err : error).

#[global] Instance error_eq_dec : EqDecision error.
Proof. solve_decision. Defined.

(** [errors.Is]: [target] is [err] or one of the errors it wraps. *)
Fixpoint errors_Is (err target : error) : bool :=
  bool_decide (err = target)
  || match err with
     | Wrapf _ inner => errors_Is inner target
     | _ => false
     end.

Inductive result (A : Type) : Type :=
| Ok (a : A)
| Err (e : error).
Arguments Ok {A} a.
Arguments Err {A} e.

(** ** internal/domain/subscription

    [uuid.UUID] is a Go string.  The ids that the service and the store
    exchange are canonical uuid texts (36 bytes, lower-case hexadecimal
    digits and hyphens), as the scan of a [uuid] column yields them: equal
    texts are equal uuids, and the store looks an id up by its text. *)

Definition UUID : Type := string.

Record Subscription : Type := {
  ID : UUID;
  ServiceName : string;
  Price : Z;
  UserID : UUID;
  StartMonth : Time;
  EndMonth : option Time
}.

Record CreateInput : Type := {
  ci_ServiceName : string;
  ci_Price : Z;
  ci_UserID : UUID;
  ci_StartMonth : Time;
  ci_EndMonth : option Time
}.

Record UpdateInput : Type := {
  ui_ServiceName : string;
  ui_Price : Z;
  ui_StartMonth : Time;
  ui_EndMonth : option Time
}.

Record ListFilter : Type := {
  lf_UserID : option UUID;
  lf_ServiceName : option string;
  StartMonthFrom : option Time;
  StartMonthTo : option Time;
  ActivePeriodFrom : option Time;
  ActivePeriodTo : option Time;
  Limit : Z;
  Offset : Z
}.

Record SummaryFilter : Type := {
  sf_UserID : option UUID;
  sf_ServiceName : option string;
  PeriodStart : Time;
  PeriodEnd : Time
}.

(** ** internal/services/subscriptions: the month arithmetic of [Sum] *)

Definition maxTime (a b : Time) : Time :=
  if After a b then a else b.

Definition monthsBetween (start end_ : Time) : Z :=
  let y := GoInt.sub (Year end_) (Year start) in
  let m := GoInt.sub (Month end_) (Month start) in
  let months := GoInt.add (GoInt.add (GoInt.mul y 12) m) 1 in
  if months <? 0 then 0 else months.

(** The locals [overlapStart] and [subEnd] of the loop of [Sum]. *)
Definition overlapStart (input : SummaryFilter) (sub : Subscription) : Time :=
  maxTime (StartMonth sub) (PeriodStart input).

Definition subEnd (input : SummaryFilter) (sub : Subscription) : Time :=
  match EndMonth sub with
  | Some e => if Before e (PeriodEnd input) then e else PeriodEnd input
  | None => PeriodEnd input
  end.

(** One iteration of the loop of [Sum]: the new value of [total]. *)
Definition sum_step (input : SummaryFilter) (total : Z) (sub : Subscription) : Z :=
  if After (overlapStart input sub) (subEnd input sub) then total
  else
    let months := monthsBetween (overlapStart input sub) (subEnd input sub) in
    GoInt.add total (GoInt.mul (Price sub) months).

Definition sum_loop (input : SummaryFilter) (subs : list Subscription) : Z :=
  fold_left (sum_step input) subs 0.

(** ** Logging ([log/slog])

    A record keeps its level and message; the attributes are left out. *)

Inductive Level : Type := LevelDebug | LevelInfo | LevelWarn | LevelError.

Record LogRecord : Type := { level : Level; message : string }.

Definition info (m : string) : LogRecord := {| level := LevelInfo; message := m |}.
Definition warn (m : string) : LogRecord := {| level := LevelWarn; message := m |}.
Definition error_ (m : string) : LogRecord := {| level := LevelError; message := m |}.

(** ** internal/services/subscriptions: [Repository] and [Service]

    A repository call runs on the state [St] of the store and returns the
    next state with its result.  A service call returns, besides, the
    records it logged, in order. *)

Record Repository (St : Type) : Type := {
  CreateSubscription : CreateInput -> St -> result Subscription * St;
  GetSubscription : UUID -> St -> result Subscription * St;
  UpdateSubscription : UUID -> UpdateInput -> St -> result Subscription * St;
  DeleteSubscription : UUID -> St -> result unit * St;
  ListSubscriptions : ListFilter -> St -> result (list Subscription) * St
}.
Arguments CreateSubscription {St} _ _ _.
Arguments GetSubscription {St} _ _ _.
Arguments UpdateSubscription {St} _ _ _ _.
Arguments DeleteSubscription {St} _ _ _.
Arguments ListSubscriptions {St} _ _ _.

Record outcome (St A : Type) : Type := {
  res : result A;
  store : St;
  logged : list LogRecord
}.
Arguments res {St A} _.
Arguments store {St A} _.
Arguments logged {St A} _.

Module Service.

Section WithRepository.

Context {St : Type} (repo : Repository St).

Definition Create (input : CreateInput) (st : St) : outcome St Subscription :=
  let l0 := [info "creating subscription"] in
  match CreateSubscription repo input st with
  | (Err err, st') =>
      {| res := Err err; store := st';
         logged := l0 ++ [error_ "failed to create subscription"] |}
  | (Ok sub, st') => {| res := Ok sub; store := st'; logged := l0 |}
  end.

Definition Get (id : UUID) (st : St) : outcome St Subscription :=
  match GetSubscription repo id st with
  | (Err err, st') =>
      {| res := Err err; store := st';
         logged := if errors_Is err ErrNotFound
                   then [warn "subscription not found"]
                   else [error_ "failed to get subscription"] |}
  | (Ok sub, st') => {| res := Ok sub; store := st'; logged := [] |}
  end.

Definition Update (id : UUID) (input : UpdateInput) (st : St)
  : outcome St Subscription :=
  let l0 := [info "updating subscription"] in
  match UpdateSubscription repo id input st with
  | (Err err, st') =>
      {| res := Err err; store := st';
         logged := l0 ++ (if errors_Is err ErrNotFound
                          then [warn "subscription not found"]
                          else [error_ "failed to update subscription"]) |}
  | (Ok sub, st') => {| res := Ok sub; store := st'; logged := l0 |}
  end.

Definition Delete (id : UUID) (st : St) : outcome St unit :=
  let l0 := [info "deleting subscription"] in
  match DeleteSubscription repo id st with
  | (Err err, st') =>
      {| res := Err err; store := st';
         logged := l0 ++ (if errors_Is err ErrNotFound
                          then [warn "subscription not found"]
                          else [error_ "failed to delete subscription"]) |}
  | (Ok _, st') => {| res := Ok tt; store := st'; logged := l0 |}
  end.

Definition List (filter : ListFilter) (st : St)
  : outcome St (list Subscription) :=
  match ListSubscriptions repo filter st with
  | (Err err, st') =>
      {| res := Err err; store := st';
         logged := [error_ "failed to list subscriptions"] |}
  | (Ok subs, st') => {| res := Ok subs; store := st'; logged := [] |}
  end.

(** The [ListFilter] that [Sum] hands to the repository. *)
Definition sum_filter (input : SummaryFilter) : ListFilter :=
  {| lf_UserID := sf_UserID input;
     lf_ServiceName := sf_ServiceName input;
     StartMonthFrom := None;
     StartMonthTo := None;
     ActivePeriodFrom := Some (PeriodStart input);
     ActivePeriodTo := Some (PeriodEnd input);
     Limit := 0;
     Offset := 0 |}.

Definition Sum (input : SummaryFilter) (st : St) : outcome St Z :=
  let listFilter := sum_filter input in
  match ListSubscriptions repo listFilter st with
  | (Err err, st') =>
      {| res := Err err; store := st';
         logged := [error_ "failed to list subscriptions for summary"] |}
  | (Ok subs, st') =>
      {| res := Ok (sum_loop input subs); store := st'; logged := [] |}
  end.

End WithRepository.

End Service.

(** ** internal/storage/postgresql: the table and its statements

    The table [subscriptions] of the migration, keyed by its primary key
    [id].  A statement is evaluated the way the server evaluates it on a
    connection that works; a statement the server rejects yields a
    [PqError]. *)

Module Postgres.

Record Row : Type := {
  service_name : string;
  price : Z;
  user_id : UUID;
  start_month : Time;
  end_month : option Time
}.

(** The store: the rows, and the ids that [uuid_generate_v4()] hands out
    ([generated] counts the calls made so far). *)
Record Store : Type := {
  rows : gmap UUID Row;
  uuid_generate_v4 : nat -> UUID;
  generated : nat
}.

Definition with_rows (st : Store) (t : gmap UUID Row) : Store :=
  {| rows := t; uuid_generate_v4 := uuid_generate_v4 st; generated := generated st |}.

(** [Scan] of the six selected columns into a [domain.Subscription]. *)
Definition scan (id : UUID) (r : Row) : Subscription :=
  {| ID := id;
     ServiceName := service_name r;
     Price := price r;
     UserID := user_id r;
     StartMonth := start_month r;
     EndMonth := end_month r |}.

(** Column types of the migration: [INT] holds 32 bits, [DATE] the years
    4713 BC to 5874897 AD. *)
Definition int4_ok (n : Z) : bool := (- 2 ^ 31 <=? n) && (n <=? 2 ^ 31 - 1).
Definition date_ok (t : Time) : bool := (- 4712 <=? Year t) && (Year t <=? 5874897).

(** What the table accepts as a row: the column types, then
    [CHECK (price >= 0)] and
    [CHECK (end_month IS NULL OR end_month >= start_month)].
    [None] means accepted.  The encoding of the text columns is not
    modelled. *)
Definition check_row (r : Row) : option error :=
  if negb (int4_ok (price r)) then Some (PqError "integer out of range")
  else if negb (date_ok (start_month r)) then Some (PqError "date out of range")
  else if negb (match end_month r with Some e => date_ok e | None => true end)
       then Some (PqError "date out of range")
  else if negb (0 <=? price r)
       then Some (PqError "violates check constraint subscriptions_price_check")
  else if match end_month r with
          | Some e => Before e (start_month r)
          | None => false
          end
       then Some (PqError "violates check constraint subscriptions_check")
  else None.

(** *** The WHERE clause that [ListSubscriptions] assembles *)

Inductive column : Type :=
| c_id | c_service_name | c_price | c_user_id | c_start_month | c_end_month.

Inductive value : Type :=
| VText (s : string)
| VInt (n : Z)
| VDate (t : Time)
| VNull.

Inductive cmp_op : Type := OpEq | OpGe | OpLe.

(** ["col op $n"] and ["(col IS NULL OR col op $n)"]. *)
Inductive condition : Type :=
| Cmp (c : column) (op : cmp_op) (placeholder : nat)
| NullOrCmp (c : column) (op : cmp_op) (placeholder : nat).

Record Query : Type := {
  q_where : list condition;
  q_args : list value;
  q_limit : option Z;
  q_offset : option Z
}.

Definition cell (c : column) (s : Subscription) : value :=
  match c with
  | c_id => VText (ID s)
  | c_service_name => VText (ServiceName s)
  | c_price => VInt (Price s)
  | c_user_id => VText (UserID s)
  | c_start_month => VDate (StartMonth s)
  | c_end_month => match EndMonth s with Some e => VDate e | None => VNull end
  end.

(** A comparison of the server: [Some b] when it is true or false, [None]
    when it is NULL (an operand is NULL) or the operands do not compare.
    The adapter compares texts for equality only; their ordering is left
    out. *)
Definition compare_values (op : cmp_op) (a b : value) : option bool :=
  match a, b with
  | VText x, VText y =>
      match op with OpEq => Some (bool_decide (x = y)) | _ => None end
  | VInt x, VInt y =>
      Some (match op with OpEq => x =? y | OpGe => y <=? x | OpLe => x <=? y end)
  | VDate x, VDate y =>
      Some (match op with
            | OpEq => negb (Before x y) && negb (Before y x)
            | OpGe => negb (Before x y)
            | OpLe => negb (Before y x)
            end)
  | _, _ => None
  end.

(** A row passes a condition when the condition is true (not NULL).
    [$n] is the [n]-th argument, counted from 1; a placeholder without an
    argument makes the statement fail. *)
Definition eval_condition (args : list value) (s : Subscription) (c : condition)
  : option bool :=
  match c with
  | Cmp col op n =>
      match args !! (n - 1)%nat with
      | Some a => Some (default false (compare_values op (cell col s) a))
      | None => None
      end
  | NullOrCmp col op n =>
      match args !! (n - 1)%nat with
      | Some a =>
          Some (match cell col s with
                | VNull => true
                | v => default false (compare_values op v a)
                end)
      | None => None
      end
  end.

Definition placeholders_bound (args : list value) (c : condition) : bool :=
  match c with
  | Cmp _ _ n | NullOrCmp _ _ n =>
      bool_decide (1 <= n)%nat && bool_decide (n <= length args)%nat
  end.

Definition passes (args : list value) (conds : list condition) (s : Subscription)
  : bool :=
  forallb (fun c => default false (eval_condition args s c)) conds.

(** [ORDER BY start_month]. *)
Definition start_le (a b : Subscription) : Prop :=
  Before (StartMonth b) (StartMonth a) = false.

#[global] Instance start_le_dec a b : Decision (start_le a b).
Proof. unfold start_le. apply _. Defined.

Definition order_by_start (l : list Subscription) : list Subscription :=
  merge_sort start_le l.

(** [OFFSET] first, then [LIMIT]. *)
Definition page (limit offset : option Z) (l : list Subscription)
  : list Subscription :=
  let l := match offset with Some k => drop (Z.to_nat k) l | None => l end in
  match limit with Some n => take (Z.to_nat n) l | None => l end.

Definition all_rows (t : gmap UUID Row) : list Subscription :=
  (fun kv => scan kv.1 kv.2) <$> map_to_list t.

(** [db.QueryContext] followed by the loop over [rows.Next]. *)
Definition run_query (t : gmap UUID Row) (q : Query) : result (list Subscription) :=
  if forallb (placeholders_bound (q_args q)) (q_where q)
  then Ok (page (q_limit q) (q_offset q)
             (order_by_start (filter (fun s => passes (q_args q) (q_where q) s = true)
                                (all_rows t))))
  else Err (PqError "there is no parameter").

(** [QueryRowContext(...).Scan(...)]: the first row, [sql.ErrNoRows]
    without one. *)
Definition row_scan (r : result (list Subscription)) : result Subscription :=
  match r with
  | Err e => Err e
  | Ok [] => Err ErrNoRows
  | Ok (s :: _) => Ok s
  end.

(** [INSERT ... RETURNING]: the default of [id] draws the next uuid. *)
Definition exec_insert (st : Store) (input : CreateInput)
  : result (list Subscription) * Store :=
  let id := uuid_generate_v4 st (generated st) in
  let st1 := {| rows := rows st; uuid_generate_v4 := uuid_generate_v4 st;
                generated := S (generated st) |} in
  let r := {| service_name := ci_ServiceName input;
              price := ci_Price input;
              user_id := ci_UserID input;
              start_month := ci_StartMonth input;
              end_month := ci_EndMonth input |} in
  match check_row r with
  | Some e => (Err e, st1)
  | None =>
      match rows st !! id with
      | Some _ => (Err (PqError "duplicate key value violates unique constraint"), st1)
      | None => (Ok [scan id r], with_rows st1 (<[id := r]> (rows st)))
      end
  end.

(** [SELECT ... WHERE id = $1]. *)
Definition exec_select_by_id (st : Store) (id : UUID) : result (list Subscription) :=
  match rows st !! id with
  | Some r => Ok [scan id r]
  | None => Ok []
  end.

(** The SET clause of the UPDATE: four columns are assigned, [id] and
    [user_id] are not. *)
Definition assign (old : Row) (input : UpdateInput) : Row :=
  {| service_name := ui_ServiceName input;
     price := ui_Price input;
     user_id := user_id old;
     start_month := ui_StartMonth input;
     end_month := ui_EndMonth input |}.

(** [UPDATE ... SET ... WHERE id = $5 RETURNING ...]. *)
Definition exec_update (st : Store) (id : UUID) (input : UpdateInput)
  : result (list Subscription) * Store :=
  match rows st !! id with
  | None => (Ok [], st)
  | Some old =>
      match check_row (assign old input) with
      | Some e => (Err e, st)
      | None =>
          (Ok [scan id (assign old input)],
           with_rows st (<[id := assign old input]> (rows st)))
      end
  end.

(** [DELETE FROM subscriptions WHERE id = $1]: the rows affected. *)
Definition exec_delete (st : Store) (id : UUID) : result Z * Store :=
  match rows st !! id with
  | Some _ => (Ok 1, with_rows st (delete id (rows st)))
  | None => (Ok 0, st)
  end.

(** *** The methods of [Storage] *)

Definition CreateSubscription (input : CreateInput) (st : Store)
  : result Subscription * Store :=
  let op := "storage.postgresql.CreateSubscription"%string in
  let (r, st') := exec_insert st input in
  match row_scan r with
  | Err err => (Err (Wrapf op err), st')
  | Ok sub => (Ok sub, st')
  end.

Definition GetSubscription (id : UUID) (st : Store)
  : result Subscription * Store :=
  let op := "storage.postgresql.GetSubscription"%string in
  match row_scan (exec_select_by_id st id) with
  | Err err =>
      if errors_Is err ErrNoRows then (Err ErrNotFound, st)
      else (Err (Wrapf op err), st)
  | Ok sub => (Ok sub, st)
  end.

Definition UpdateSubscription (id : UUID) (input : UpdateInput) (st : Store)
  : result Subscription * Store :=
  let op := "storage.postgresql.UpdateSubscription"%string in
  let (r, st') := exec_update st id input in
  match row_scan r with
  | Err err =>
      if errors_Is err ErrNoRows then (Err ErrNotFound, st')
      else (Err (Wrapf op err), st')
  | Ok sub => (Ok sub, st')
  end.

Definition DeleteSubscription (id : UUID) (st : Store) : result unit * Store :=
  let op := "storage.postgresql.DeleteSubscription"%string in
  match exec_delete st id with
  | (Err err, st') => (Err (Wrapf op err), st')
  | (Ok affected, st') =>
      if affected =? 0 then (Err ErrNotFound, st') else (Ok tt, st')
  end.

(** The conditions and arguments of [ListSubscriptions], appended in the
    order of the source; a placeholder is the number of arguments after
    its own was appended. *)
Definition add_condition (mk : nat -> condition) (a : value)
    (acc : list condition * list value) : list condition * list value :=
  let args := acc.2 ++ [a] in
  (acc.1 ++ [mk (length args)], args).

Definition list_conditions (filter : ListFilter) : list condition * list value :=
  let acc : list condition * list value := ([], []) in
  let acc := match lf_UserID filter with
             | Some u => add_condition (Cmp c_user_id OpEq) (VText u) acc
             | None => acc
             end in
  let acc := match lf_ServiceName filter with
             | Some n => add_condition (Cmp c_service_name OpEq) (VText n) acc
             | None => acc
             end in
  let acc := match StartMonthFrom filter with
             | Some t => add_condition (Cmp c_start_month OpGe) (VDate t) acc
             | None => acc
             end in
  let acc := match StartMonthTo filter with
             | Some t => add_condition (Cmp c_start_month OpLe) (VDate t) acc
             | None => acc
             end in
  match ActivePeriodFrom filter, ActivePeriodTo filter with
  | Some from, Some to =>
      let acc := add_condition (Cmp c_start_month OpLe) (VDate to) acc in
      add_condition (NullOrCmp c_end_month OpGe) (VDate from) acc
  | _, _ => acc
  end.

Definition list_query (filter : ListFilter) : Query :=
  let (conditions, args) := list_conditions filter in
  {| q_where := conditions;
     q_args := args;
     q_limit := if Limit filter >? 0 then Some (Limit filter) else None;
     q_offset := if Offset filter >? 0 then Some (Offset filter) else None |}.

Definition ListSubscriptions (filter : ListFilter) (st : Store)
  : result (list Subscription) * Store :=
  let op := "storage.postgresql.ListSubscriptions"%string in
  match run_query (rows st) (list_query filter) with
  | Err err => (Err (Wrapf op err), st)
  | Ok result => (Ok result, st)
  end.

(** [*Storage] as the [Repository] of the service. *)
Definition Storage : Repository Store :=
  Build_Repository Store
    CreateSubscription GetSubscription UpdateSubscription
    DeleteSubscription ListSubscriptions.

End Postgres.

(** ** internal/lib/uuid

    A Go string is its bytes.  [range] and [strings.ToLower] read them as
    UTF-8, so the decoding of [unicode/utf8] is written out.  The two
    tables of package [unicode] that the code consults outside ASCII and
    Latin-1 are parameters of the section. *)

Module uuid.

Definition byte_of (a : ascii) : Z := Z.of_N (N_of_ascii a).
Definition ascii_of (b : Z) : ascii := ascii_of_N (Z.to_N b).

Fixpoint bytes (s : string) : list Z :=
  match s with
  | EmptyString => []
  | String a rest => byte_of a :: bytes rest
  end.

Fixpoint of_bytes (l : list Z) : string :=
  match l with
  | [] => EmptyString
  | b :: rest => String (ascii_of b) (of_bytes rest)
  end.

(** [len(s)]: the number of bytes. *)
Definition len (s : string) : Z := Z.of_nat (List.length (bytes s)).

Definition RuneError : Z := 0xFFFD.
Definition MaxRune : Z := 0x10FFFF.

Definition between (lo hi b : Z) : bool := (lo <=? b) && (b <=? hi).
Definition continuation (b : Z) : bool := between 0x80 0xBF b.

(** [utf8.DecodeRuneInString]: the rune at the head of [p] and its width
    in bytes; [(RuneError, 1)] for a byte that starts no valid encoding. *)
Definition DecodeRune (p : list Z) : Z * nat :=
  match p with
  | [] => (RuneError, 0%nat)
  | b0 :: rest =>
      if b0 <? 0x80 then (b0, 1%nat)
      else if between 0xC2 0xDF b0 then
        match rest with
        | b1 :: _ =>
            if continuation b1
            then (Z.lor (Z.shiftl (Z.land b0 0x1F) 6) (Z.land b1 0x3F), 2%nat)
            else (RuneError, 1%nat)
        | _ => (RuneError, 1%nat)
        end
      else if between 0xE0 0xEF b0 then
        match rest with
        | b1 :: b2 :: _ =>
            let lo := if b0 =? 0xE0 then 0xA0 else 0x80 in
            let hi := if b0 =? 0xED then 0x9F else 0xBF in
            if between lo hi b1 && continuation b2
            then (Z.lor (Z.shiftl (Z.land b0 0x0F) 12)
                    (Z.lor (Z.shiftl (Z.land b1 0x3F) 6) (Z.land b2 0x3F)), 3%nat)
            else (RuneError, 1%nat)
        | _ => (RuneError, 1%nat)
        end
      else if between 0xF0 0xF4 b0 then
        match rest with
        | b1 :: b2 :: b3 :: _ =>
            let lo := if b0 =? 0xF0 then 0x90 else 0x80 in
            let hi := if b0 =? 0xF4 then 0x8F else 0xBF in
            if between lo hi b1 && continuation b2 && continuation b3
            then (Z.lor (Z.shiftl (Z.land b0 0x07) 18)
                    (Z.lor (Z.shiftl (Z.land b1 0x3F) 12)
                       (Z.lor (Z.shiftl (Z.land b2 0x3F) 6) (Z.land b3 0x3F))), 4%nat)
            else (RuneError, 1%nat)
        | _ => (RuneError, 1%nat)
        end
      else (RuneError, 1%nat)
  end.

(** [utf8.AppendRune]: the encoding of a rune; a surrogate or a value out
    of range is written as [RuneError]. *)
Definition EncodeRune (r : Z) : list Z :=
  if between 0 0x7F r then [r]
  else if between 0x80 0x7FF r then
    [Z.lor 0xC0 (Z.shiftr r 6); Z.lor 0x80 (Z.land r 0x3F)]
  else if (r <? 0) || (MaxRune <? r) || between 0xD800 0xDFFF r then
    [0xEF; 0xBF; 0xBD]
  else if r <=? 0xFFFF then
    [Z.lor 0xE0 (Z.shiftr r 12);
     Z.lor 0x80 (Z.land (Z.shiftr r 6) 0x3F);
     Z.lor 0x80 (Z.land r 0x3F)]
  else
    [Z.lor 0xF0 (Z.shiftr r 18);
     Z.lor 0x80 (Z.land (Z.shiftr r 12) 0x3F);
     Z.lor 0x80 (Z.land (Z.shiftr r 6) 0x3F);
     Z.lor 0x80 (Z.land r 0x3F)].

(** [for i, r := range s]: the byte offset and the rune of every step.
    Each step consumes at least one byte, so the length of the string is
    fuel enough. *)
Fixpoint range_from (fuel : nat) (i : Z) (p : list Z) : list (Z * Z) :=
  match fuel with
  | O => []
  | S fuel' =>
      match p with
      | [] => []
      | _ :: _ =>
          let (r, w) := DecodeRune p in
          (i, r) :: range_from fuel' (i + Z.of_nat w) (drop w p)
      end
  end.

Definition range (p : list Z) : list (Z * Z) := range_from (List.length p) 0 p.

(** The bytes of a string with their offsets, from offset [i] on. *)
Fixpoint enumerate_from (i : Z) (p : list Z) : list (Z * Z) :=
  match p with
  | [] => []
  | b :: rest => (i, b) :: enumerate_from (i + 1) rest
  end.

(** ['A'..'Z'] to ['a'..'z'], any other byte as it is. *)
Definition lower_byte (c : Z) : Z := if between 65 90 c then c + 32 else c.

Definition lower_ascii (s : string) : string :=
  of_bytes (map lower_byte (bytes s)).

Section Unicode.

(** [unicode_Digit r]: [r] is in the table [unicode.Digit] (category Nd),
    asked for [r] above Latin-1.  [unicode_LowerCase r]: what
    [unicode.To(unicode.LowerCase, r)] returns, asked for [r] above
    ASCII. *)
Variable unicode_Digit : Z -> bool.
Variable unicode_LowerCase : Z -> Z.

Definition IsDigit (r : Z) : bool :=
  if r <=? 0xFF then between 48 57 r else unicode_Digit r.

Definition unicode_ToLower (r : Z) : Z :=
  if r <=? 0x7F then (if between 65 90 r then r + 32 else r)
  else unicode_LowerCase r.

(** [strings.ToLower]: bytewise on a string that is all ASCII, otherwise
    [strings.Map(unicode.ToLower, s)], which writes every rune of [s]
    again after mapping it. *)
Definition ToLower (p : list Z) : list Z :=
  if forallb (fun c => c <? 0x80) p then
    (if existsb (between 65 90) p then map lower_byte p else p)
  else flat_map (fun ir => EncodeRune (unicode_ToLower ir.2)) (range p).

Definition isHex (r : Z) : bool := IsDigit r || between 97 102 r.

(** The body of the loop of [Parse] for one step of [range lower]. *)
Definition rune_ok (ir : Z * Z) : bool :=
  let (i, r) := ir in
  if (i =? 8) || (i =? 13) || (i =? 18) || (i =? 23) then r =? 45
  else isHex r.

Definition Parse (s : string) : result UUID :=
  if negb (len s =? 36) then Err ErrInvalidUUID
  else
    let lower := ToLower (bytes s) in
    if forallb rune_ok (range lower) then Ok (of_bytes lower)
    else Err ErrInvalidUUID.

End Unicode.

Definition String_ (u : UUID) : string := u.

(** The sixteen hexadecimal digits, in either case. *)
Definition hex_digit (b : Z) : bool :=
  between 48 57 b || between 97 102 b || between 65 70 b.

(** The 8-4-4-4-12 layout: 36 bytes, ['-'] at offsets 8, 13, 18 and 23,
    a hexadecimal digit at every other offset. *)
Fixpoint layout_from (i : Z) (p : list Z) : bool :=
  match p with
  | [] => true
  | b :: rest =>
      (if (i =? 8) || (i =? 13) || (i =? 18) || (i =? 23) then b =? 45
       else hex_digit b)
      && layout_from (i + 1) rest
  end.

Definition canonical_layout (s : string) : bool :=
  (len s =? 36) && layout_from 0 (bytes s).

(** ARABIC-INDIC DIGIT ZERO (U+0660, bytes D9 A0) followed by ASCII. *)
Definition arabic_zero_id : string :=
  String (ascii_of 0xD9) (String (ascii_of 0xA0)
    "000000-0000-0000-0000-000000000000").

End uuid.

(** ** The cost aggregation as the specification words it

    Exact integers, one subscription at a time: the overlap starts at the
    later of [startMonth] and [periodStart], ends at [endMonth] when that
    is set and earlier than [periodEnd] and at [periodEnd] otherwise; a
    subscription whose overlap starts after it ends counts zero months,
    any other the months from the one to the other, both included. *)

Module Spec.

Definition overlapStart (input : SummaryFilter) (sub : Subscription) : Time :=
  if Before (PeriodStart input) (StartMonth sub) then StartMonth sub
  else PeriodStart input.

Definition effectiveEnd (input : SummaryFilter) (sub : Subscription) : Time :=
  match EndMonth sub with
  | Some e => if Before e (PeriodEnd input) then e else PeriodEnd input
  | None => PeriodEnd input
  end.

Definition inclusive_months (from to : Time) : Z :=
  (Year to - Year from) * 12 + (Month to - Month from) + 1.

Definition skipped (input : SummaryFilter) (sub : Subscription) : bool :=
  Before (effectiveEnd input sub) (overlapStart input sub).

Definition monthsOverlap (input : SummaryFilter) (sub : Subscription) : Z :=
  if skipped input sub then 0
  else inclusive_months (overlapStart input sub) (effectiveEnd input sub).

Definition contribution (input : SummaryFilter) (sub : Subscription) : Z :=
  Price sub * monthsOverlap input sub.

Fixpoint total (input : SummaryFilter) (subs : list Subscription) : Z :=
  match subs with
  | [] => 0
  | sub :: rest => contribution input sub + total input rest
  end.

(** The filters of a [ListFilter] other than the active period. *)
Definition other_filters (f : ListFilter) (s : Subscription) : bool :=
  match lf_UserID f with Some u => bool_decide (UserID s = u) | None => true end
  && match lf_ServiceName f with
     | Some n => bool_decide (ServiceName s = n)
     | None => true
     end
  && match StartMonthFrom f with
     | Some t => negb (Before (StartMonth s) t)
     | None => true
     end
  && match StartMonthTo f with
     | Some t => negb (Before t (StartMonth s))
     | None => true
     end.

(** [startMonth <= to AND (endMonth IS NULL OR endMonth >= from)]. *)
Definition overlaps (from to : Time) (s : Subscription) : bool :=
  negb (Before to (StartMonth s))
  && match EndMonth s with
     | Some e => negb (Before e from)
     | None => true
     end.

(** Pagination: skip [Offset] rows when it is positive, then keep
    [Limit] rows when that is positive. *)
Definition paginate (f : ListFilter) (l : list Subscription) : list Subscription :=
  let l := if Offset f >? 0 then drop (Z.to_nat (Offset f)) l else l in
  if Limit f >? 0 then take (Z.to_nat (Limit f)) l else l.

(** Two dates of one computation are aligned when they lie in different
    months or on the same day. *)
Definition aligned (t u : Time) : Prop := same_month t u -> Day t = Day u.

(** Every two dates that [Sum] may compare for [sub] are aligned. *)
Definition day_consistent (input : SummaryFilter) (sub : Subscription) : Prop :=
  aligned (StartMonth sub) (PeriodStart input)
  /\ aligned (StartMonth sub) (PeriodEnd input)
  /\ aligned (PeriodStart input) (PeriodEnd input)
  /\ match EndMonth sub with
     | Some e =>
         aligned e (PeriodEnd input) /\ aligned e (PeriodStart input)
         /\ aligned e (StartMonth sub)
     | None => True
     end.

(** Two subscriptions that differ at most in the day of their months. *)
Definition same_months (s s' : Subscription) : Prop :=
  Price s = Price s'
  /\ same_month (StartMonth s) (StartMonth s')
  /\ match EndMonth s, EndMonth s' with
     | Some e, Some e' => same_month e e'
     | None, None => True
     | _, _ => False
     end.

End Spec.

(** ** A repository held in memory

    It answers every listing with the subscriptions it was built from and
    knows no id: the plainest [Repository] a caller of the service can
    supply. *)

Module Memory.

Definition Listing (subs : list Subscription) : Repository unit :=
  {| CreateSubscription := fun _ st => (Err (PqError "read-only"), st);
     GetSubscription := fun _ st => (Err ErrNotFound, st);
     UpdateSubscription := fun _ _ st => (Err ErrNotFound, st);
     DeleteSubscription := fun _ st => (Err ErrNotFound, st);
     ListSubscriptions := fun _ st => (Ok subs, st) |}.

(** A repository whose every call fails with [err]. *)
Definition Failing (err : error) : Repository unit :=
  {| CreateSubscription := fun _ st => (Err err, st);
     GetSubscription := fun _ st => (Err err, st);
     UpdateSubscription := fun _ _ st => (Err err, st);
     DeleteSubscription := fun _ st => (Err err, st);
     ListSubscriptions := fun _ st => (Err err, st) |}.

End Memory.

(** ** Sample values *)

Module Sample.

Definition jan2023 : Time := Date 2023 1 1 eq_refl.
Definition jan2023_10 : Time := Date 2023 1 10 eq_refl.
Definition jan2023_15 : Time := Date 2023 1 15 eq_refl.
Definition feb2023 : Time := Date 2023 2 1 eq_refl.
Definition mar2023 : Time := Date 2023 3 1 eq_refl.
Definition mar2023_15 : Time := Date 2023 3 15 eq_refl.
Definition jun2023 : Time := Date 2023 6 1 eq_refl.
Definition dec2023 : Time := Date 2023 12 1 eq_refl.
Definition jan2024 : Time := Date 2024 1 1 eq_refl.

Definition id1 : UUID := "11111111-1111-1111-1111-111111111111".
Definition id2 : UUID := "22222222-2222-2222-2222-222222222222".
Definition user1 : UUID := "aaaaaaaa-aaaa-aaaa-aaaa-aaaaaaaaaaaa".

Definition sub (id : UUID) (p : Z) (from : Time) (to : option Time) : Subscription :=
  {| ID := id; ServiceName := "music"; Price := p; UserID := user1;
     StartMonth := from; EndMonth := to |}.

Definition update (p : Z) (from : Time) (to : option Time) : UpdateInput :=
  {| ui_ServiceName := "video"; ui_Price := p;
     ui_StartMonth := from; ui_EndMonth := to |}.

Definition window (from to : Time) : SummaryFilter :=
  {| sf_UserID := None; sf_ServiceName := None;
     PeriodStart := from; PeriodEnd := to |}.


Definition row (p : Z) (from : Time) (to : option Time) : Postgres.Row :=
  {| Postgres.service_name := "music"; Postgres.price := p;
     Postgres.user_id := user1;
     Postgres.start_month := from; Postgres.end_month := to |}.

Definition store (t : gmap UUID Postgres.Row) : Postgres.Store :=
  {| Postgres.rows := t;
     Postgres.uuid_generate_v4 := fun _ => id2;
     Postgres.generated := 0 |}.

End Sample.

(** ** Vocabulary for the storage adapter

    Names for what the statements about [Storage] speak of. *)

Module Stored.


(** The id that the next [INSERT] draws. *)
Definition next_id (st : Postgres.Store) : UUID :=
  Postgres.uuid_generate_v4 st (Postgres.generated st).

(** The row that [CreateSubscription] inserts for an input. *)
Definition row_of (input : CreateInput) : Postgres.Row :=
  {| Postgres.service_name := ci_ServiceName input;
     Postgres.price := ci_Price input;
     Postgres.user_id := ci_UserID input;
     Postgres.start_month := ci_StartMonth input;
     Postgres.end_month := ci_EndMonth input |}.




(** Every date of the store is the first day of its month. *)
Definition first_days (st : Postgres.Store) : Prop :=
  map_Forall (fun (_ : UUID) r =>
                Day (Postgres.start_month r) = 1
                /\ match Postgres.end_month r with
                   | Some e => Day e = 1
                   | None => True
                   end) (Postgres.rows st).



Definition empty : Postgres.Store :=
  {| Postgres.rows := ∅;
     Postgres.uuid_generate_v4 := fun _ => Sample.id1;
     Postgres.generated := 0 |}.

End Stored.

(** ** internal/lib/uuid: [Value] and [Scan]

    What [database/sql] hands to [Scan] is nil, a string, a byte slice or
    a value of some other type (kept by the name of its type); what
    [Value] hands back is nil or a string.  The error of the last case of
    [Scan], [fmt.Errorf("%w: unexpected type %T", ErrInvalidUUID, src)],
    wraps [ErrInvalidUUID]; it is written with [Wrapf], the text of the
    type in place of the operation. *)

Module uuid_sql.

Inductive any : Type :=
| AnyNil
| AnyString (v : string)
| AnyBytes (v : list Z)
| AnyOther (type_name : string).

Inductive driver_Value : Type :=
| ValueNil
| ValueString (v : string).

Definition Value (u : UUID) : result driver_Value :=
  if decide (u = EmptyString) then Ok ValueNil else Ok (ValueString u).

Section Unicode.

Variable unicode_Digit : Z -> bool.
Variable unicode_LowerCase : Z -> Z.

(** [u.Scan(src)] for [*u] holding [u]: the value [*u] holds afterwards,
    and the error returned. *)
Definition Scan (u : UUID) (src : any) : UUID * option error :=
  match src with
  | AnyNil => (EmptyString, None)
  | AnyString v =>
      match uuid.Parse unicode_Digit unicode_LowerCase v with
      | Err err => (u, Some err)
      | Ok parsed => (parsed, None)
      end
  | AnyBytes v =>
      match uuid.Parse unicode_Digit unicode_LowerCase (uuid.of_bytes v) with
      | Err err => (u, Some err)
      | Ok parsed => (parsed, None)
      end
  | AnyOther type_name =>
      (u, Some (Wrapf ("unexpected type " ++ type_name) ErrInvalidUUID))
  end.

End Unicode.

(** What the driver stores for a [driver_Value] and gives back on a read:
    text comes back as bytes. *)
Definition stored (v : driver_Value) : any :=
  match v with
  | ValueNil => AnyNil
  | ValueString s => AnyBytes (uuid.bytes s)
  end.

(** A canonical uuid text: the 8-4-4-4-12 layout in lower case. *)
Definition canonical (u : UUID) : Prop :=
  uuid.canonical_layout u = true /\ uuid.lower_ascii u = u.

End uuid_sql.

(** ** [time.Parse] and [Time.Format] with [domain.MonthLayout]

    [MonthLayout] is ["01-2006"]: the month in two digits, a hyphen, the
    year in four digits.  The steps of package [time] for this layout are
    written out: [getnum] with a fixed width for the month, [skip] for the
    hyphen, the four digits of the year through [atoi], no text left
    over; the result is the first day of the month at midnight UTC. *)

Module month_layout.

Definition isDigit (s : list Z) (i : nat) : bool :=
  match s !! i with
  | Some c => uuid.between 48 57 c
  | None => false
  end.

(** [getnum(s, true)]: two digits, as a number, and the rest. *)
Definition getnum_fixed (s : list Z) : option (Z * list Z) :=
  if negb (isDigit s 0) then None
  else if negb (isDigit s 1) then None
  else match s with
       | a :: b :: rest => Some ((a - 48) * 10 + (b - 48), rest)
       | _ => None
       end.

(** [skip(value, "-")]. *)
Definition skip_hyphen (value : list Z) : option (list Z) :=
  match value with
  | c :: rest => if c =? 45 then Some rest else None
  | [] => None
  end.

(** [leadingInt]: the digits at the head of [s] as a number, and the
    rest; no result when the number passes [1 << 63]. *)
Fixpoint leadingInt (s : list Z) (x : Z) : option (Z * list Z) :=
  match s with
  | [] => Some (x, [])
  | c :: rest =>
      if (c <? 48) || (57 <? c) then Some (x, s)
      else if 2 ^ 63 / 10 <? x then None
      else
        let x' := x * 10 + (c - 48) in
        if 2 ^ 63 <? x' then None else leadingInt rest x'
  end.

(** [atoi]: an optional sign and digits, nothing else. *)
Definition atoi (s : list Z) : option Z :=
  let (neg, s) :=
    match s with
    | c :: rest => if (c =? 45) || (c =? 43) then (c =? 45, rest) else (false, s)
    | [] => (false, s)
    end in
  match leadingInt s 0 with
  | Some (q, []) => Some (if neg then GoInt.wrap (- GoInt.wrap q) else GoInt.wrap q)
  | _ => None
  end.

(** The case [stdLongYear]: four bytes that start with a digit, read by
    [atoi]. *)
Definition long_year (value : list Z) : option (Z * list Z) :=
  if (length value <? 4)%nat || negb (isDigit value 0) then None
  else match atoi (take 4 value) with
       | Some year => Some (year, drop 4 value)
       | None => None
       end.

(** [time.Date(y, m, d, 0, 0, 0, 0, time.UTC)] for a day of the
    calendar. *)
Definition Date_of (y m d : Z) : option Time :=
  match Bool.bool_dec (valid_date y m d) true with
  | left ok => Some (Date y m d ok)
  | right _ => None
  end.

(** [time.Parse(domain.MonthLayout, value)]; [None] for an error. *)
Definition Parse (value : string) : option Time :=
  match getnum_fixed (uuid.bytes value) with
  | None => None
  | Some (month, value) =>
      if (month <=? 0) || (12 <? month) then None
      else
        match skip_hyphen value with
        | None => None
        | Some value =>
            match long_year value with
            | None => None
            | Some (year, value) =>
                if negb (length value =? 0)%nat then None
                else Date_of year month 1
            end
        end
  end.

(** The decimal digits of [u], most significant first. *)
Fixpoint utoa (fuel : nat) (u : Z) : list Z :=
  match fuel with
  | O => []
  | S fuel' =>
      if u <? 10 then [48 + u]
      else utoa fuel' (u / 10) ++ [48 + u mod 10]
  end.

(** [appendInt(b, x, width)]: a minus sign for a negative [x], then its
    digits, padded with zeros to [width]. *)
Definition appendInt (x : Z) (width : nat) : list Z :=
  let digits := utoa 20 (Z.abs x) in
  (if x <? 0 then [45] else [])
  ++ repeat 48 (width - length digits) ++ digits.

(** [t.Format(domain.MonthLayout)]. *)
Definition Format (t : Time) : string :=
  uuid.of_bytes (appendInt (Month t) 2 ++ [45] ++ appendInt (Year t) 4).

(** A month value as the layout can write and read it: the first day of
    a month of the years 0 to 9999. *)
Definition normal (t : Time) : Prop := Day t = 1 /\ 0 <= Year t <= 9999.

End month_layout.

(** ** [strconv.Atoi] and [strings.TrimPrefix] *)

Module strconv.

(** [Atoi]: an optional sign, then digits only and at least one, and a
    value that fits an [int]; [None] for an error. *)
Definition Atoi (s : string) : option Z :=
  let b := uuid.bytes s in
  let (neg, digits) :=
    match b with
    | c :: rest => if (c =? 45) || (c =? 43) then (c =? 45, rest) else (false, b)
    | [] => (false, b)
    end in
  if (length digits =? 0)%nat then None
  else if negb (forallb (uuid.between 48 57) digits) then None
  else
    let n := fold_left (fun acc c => acc * 10 + (c - 48)) digits 0 in
    let v := if neg then - n else n in
    if (GoInt.min_int <=? v) && (v <=? GoInt.max_int) then Some v else None.

End strconv.

Module strings.

(** [TrimPrefix]: [s] without the leading [prefix], or [s] itself when
    it does not start with [prefix]. *)
Definition TrimPrefix (s prefix : string) : string :=
  if String.prefix prefix s
  then String.substring (String.length prefix)
         (String.length s - String.length prefix) s
  else s.

End strings.

(** ** internal/http/handlers/subscriptions

    A request is its method, its path, the values of its query and what
    decoding its body as JSON gives ([None] when [Decode] fails).  A
    handler returns the response it wrote, the store after the calls of
    the service, and the records logged by it and by the service, in
    order. *)

Module handlers.

Definition basePath : string := "/api/v1/subscriptions".

Record subscriptionRequest : Type := {
  rq_ServiceName : string;
  rq_Price : Z;
  rq_UserID : string;
  rq_StartDate : string;
  rq_EndDate : option string
}.

Record subscriptionResponse : Type := {
  rs_ID : UUID;
  rs_ServiceName : string;
  rs_Price : Z;
  rs_UserID : UUID;
  rs_StartDate : string;
  rs_EndDate : option string
}.

Record Request : Type := {
  Method : string;
  Path : string;
  Query : gmap string (list string);
  Body : option subscriptionRequest
}.

(** [url.Values.Get]: the first value of the key, or the empty string. *)
Definition Get (q : gmap string (list string)) (key : string) : string :=
  match q !! key with
  | Some (v :: _) => v
  | _ => EmptyString
  end.

(** What a handler wrote: the text of [http.Error] or [http.NotFound],
    the body of [writeJSON], or nothing after [WriteHeader] alone. *)
Inductive body : Type :=
| NoBody
| Text (msg : string)
| JSONSubscription (sub : subscriptionResponse)
| JSONList (subs : list subscriptionResponse)
| JSONTotal (total : Z).

Record Response : Type := { status : Z; written : body }.

(** A value parsed from a request, or the text of the error. *)
Inductive parsed (A : Type) : Type :=
| Parsed (a : A)
| Invalid (msg : string).
Arguments Parsed {A} a.
Arguments Invalid {A} msg.

Definition debug (m : string) : LogRecord := {| level := LevelDebug; message := m |}.

Definition subscriptionResponseFromDomain (sub : Subscription) : subscriptionResponse :=
  {| rs_ID := ID sub;
     rs_ServiceName := ServiceName sub;
     rs_Price := Price sub;
     rs_UserID := UserID sub;
     rs_StartDate := month_layout.Format (StartMonth sub);
     rs_EndDate := match EndMonth sub with
                   | Some e => Some (month_layout.Format e)
                   | None => None
                   end |}.

Section Unicode.

Variable unicode_Digit : Z -> bool.
Variable unicode_LowerCase : Z -> Z.

Definition toCreateInput (r : subscriptionRequest) : parsed CreateInput :=
  match uuid.Parse unicode_Digit unicode_LowerCase (rq_UserID r) with
  | Err _ => Invalid "invalid user_id"
  | Ok userID =>
      match month_layout.Parse (rq_StartDate r) with
      | None => Invalid "invalid start_date format, expected MM-YYYY"
      | Some start =>
          let finish (end_ : option Time) :=
            Parsed {| ci_ServiceName := rq_ServiceName r;
                      ci_Price := rq_Price r;
                      ci_UserID := userID;
                      ci_StartMonth := start;
                      ci_EndMonth := end_ |} in
          match rq_EndDate r with
          | None => finish None
          | Some e =>
              if decide (e = EmptyString) then finish None
              else match month_layout.Parse e with
                   | None => Invalid "invalid end_date format, expected MM-YYYY"
                   | Some parsed => finish (Some parsed)
                   end
          end
      end
  end.

Definition toUpdateInput (r : subscriptionRequest) : parsed UpdateInput :=
  match toCreateInput r with
  | Invalid msg => Invalid msg
  | Parsed input =>
      Parsed {| ui_ServiceName := ci_ServiceName input;
                ui_Price := ci_Price input;
                ui_StartMonth := ci_StartMonth input;
                ui_EndMonth := ci_EndMonth input |}
  end.

Definition parseListFilter (q : gmap string (list string)) : parsed ListFilter :=
  let userID := Get q "user_id" in
  match (if decide (userID = EmptyString) then Parsed None
         else match uuid.Parse unicode_Digit unicode_LowerCase userID with
              | Err _ => Invalid "invalid user_id"
              | Ok parsed => Parsed (Some parsed)
              end) with
  | Invalid msg => Invalid msg
  | Parsed f_UserID =>
  let serviceName := Get q "service_name" in
  let f_ServiceName :=
    if decide (serviceName = EmptyString) then None else Some serviceName in
  let start := Get q "start_date" in
  match (if decide (start = EmptyString) then Parsed None
         else match month_layout.Parse start with
              | None => Invalid "invalid start_date format, expected MM-YYYY"
              | Some parsed => Parsed (Some parsed)
              end) with
  | Invalid msg => Invalid msg
  | Parsed f_StartMonthFrom =>
  let end_ := Get q "end_date" in
  match (if decide (end_ = EmptyString) then Parsed None
         else match month_layout.Parse end_ with
              | None => Invalid "invalid end_date format, expected MM-YYYY"
              | Some parsed => Parsed (Some parsed)
              end) with
  | Invalid msg => Invalid msg
  | Parsed f_StartMonthTo =>
  let limit := Get q "limit" in
  match (if decide (limit = EmptyString) then Parsed 0
         else match strconv.Atoi limit with
              | None => Invalid "invalid limit"
              | Some parsed => if parsed <? 0 then Invalid "invalid limit" else Parsed parsed
              end) with
  | Invalid msg => Invalid msg
  | Parsed f_Limit =>
  let offset := Get q "offset" in
  match (if decide (offset = EmptyString) then Parsed 0
         else match strconv.Atoi offset with
              | None => Invalid "invalid offset"
              | Some parsed => if parsed <? 0 then Invalid "invalid offset" else Parsed parsed
              end) with
  | Invalid msg => Invalid msg
  | Parsed f_Offset =>
      Parsed {| lf_UserID := f_UserID;
                lf_ServiceName := f_ServiceName;
                StartMonthFrom := f_StartMonthFrom;
                StartMonthTo := f_StartMonthTo;
                ActivePeriodFrom := None;
                ActivePeriodTo := None;
                Limit := f_Limit;
                Offset := f_Offset |}
  end end end end end.

Definition parseSummaryFilter (q : gmap string (list string)) : parsed SummaryFilter :=
  let start := Get q "start_date" in
  let end_ := Get q "end_date" in
  if decide (start = EmptyString \/ end_ = EmptyString)
  then Invalid "start_date and end_date are required"
  else
    match month_layout.Parse start with
    | None => Invalid "invalid start_date format, expected MM-YYYY"
    | Some startMonth =>
        match month_layout.Parse end_ with
        | None => Invalid "invalid end_date format, expected MM-YYYY"
        | Some endMonth =>
            if Before endMonth startMonth
            then Invalid "end_date must be after start_date"
            else
              let userID := Get q "user_id" in
              match (if decide (userID = EmptyString) then Parsed None
                     else match uuid.Parse unicode_Digit unicode_LowerCase userID with
                          | Err _ => Invalid "invalid user_id"
                          | Ok parsed => Parsed (Some parsed)
                          end) with
              | Invalid msg => Invalid msg
              | Parsed f_UserID =>
                  let serviceName := Get q "service_name" in
                  Parsed {| sf_UserID := f_UserID;
                            sf_ServiceName :=
                              if decide (serviceName = EmptyString) then None
                              else Some serviceName;
                            PeriodStart := startMonth;
                            PeriodEnd := endMonth |}
              end
        end
    end.

Section WithService.

Context {St : Type} (repo : Repository St).

Record reply : Type := {
  response : Response;
  after : St;
  recorded : list LogRecord
}.

(** [http.Error(w, msg, code)]. *)
Definition Error (msg : string) (code : Z) : Response :=
  {| status := code; written := Text msg |}.

Definition handleCreate (r : Request) (st : St) : reply :=
  match Body r with
  | None =>
      {| response := Error "invalid request body" 400; after := st;
         recorded := [warn "failed to decode create request"] |}
  | Some req =>
      match toCreateInput req with
      | Invalid msg =>
          {| response := Error msg 400; after := st;
             recorded := [warn "invalid create request"] |}
      | Parsed input =>
          let o := Service.Create repo input st in
          match res o with
          | Err _ =>
              {| response := Error "failed to create subscription" 500;
                 after := store o;
                 recorded := [info "creating subscription"] ++ logged o
                             ++ [error_ "failed to create subscription"] |}
          | Ok sub =>
              {| response := {| status := 201;
                                written := JSONSubscription
                                             (subscriptionResponseFromDomain sub) |};
                 after := store o;
                 recorded := [info "creating subscription"] ++ logged o
                             ++ [info "subscription created"] |}
          end
      end
  end.

Definition handleGet (id : UUID) (st : St) : reply :=
  let o := Service.Get repo id st in
  match res o with
  | Err err =>
      if errors_Is err ErrNotFound
      then {| response := Error "subscription not found" 404; after := store o;
              recorded := [debug "getting subscription"] ++ logged o
                          ++ [warn "subscription not found"] |}
      else {| response := Error "failed to get subscription" 500; after := store o;
              recorded := [debug "getting subscription"] ++ logged o
                          ++ [error_ "failed to get subscription"] |}
  | Ok sub =>
      {| response := {| status := 200;
                        written := JSONSubscription
                                     (subscriptionResponseFromDomain sub) |};
         after := store o;
         recorded := [debug "getting subscription"] ++ logged o
                     ++ [debug "subscription fetched"] |}
  end.

Definition handleUpdate (r : Request) (id : UUID) (st : St) : reply :=
  match Body r with
  | None =>
      {| response := Error "invalid request body" 400; after := st;
         recorded := [warn "failed to decode update request"] |}
  | Some req =>
      match toUpdateInput req with
      | Invalid msg =>
          {| response := Error msg 400; after := st;
             recorded := [warn "invalid update request"] |}
      | Parsed input =>
          let o := Service.Update repo id input st in
          match res o with
          | Err err =>
              if errors_Is err ErrNotFound
              then {| response := Error "subscription not found" 404;
                      after := store o;
                      recorded := [info "updating subscription"] ++ logged o
                                  ++ [warn "subscription not found"] |}
              else {| response := Error "failed to update subscription" 500;
                      after := store o;
                      recorded := [info "updating subscription"] ++ logged o
                                  ++ [error_ "failed to update subscription"] |}
          | Ok sub =>
              {| response := {| status := 200;
                                written := JSONSubscription
                                             (subscriptionResponseFromDomain sub) |};
                 after := store o;
                 recorded := [info "updating subscription"] ++ logged o
                             ++ [info "subscription updated"] |}
          end
      end
  end.

Definition handleDelete (id : UUID) (st : St) : reply :=
  let o := Service.Delete repo id st in
  match res o with
  | Err err =>
      if errors_Is err ErrNotFound
      then {| response := Error "subscription not found" 404; after := store o;
              recorded := [info "deleting subscription"] ++ logged o
                          ++ [warn "subscription not found"] |}
      else {| response := Error "failed to delete subscription" 500;
              after := store o;
              recorded := [info "deleting subscription"] ++ logged o
                          ++ [error_ "failed to delete subscription"] |}
  | Ok _ =>
      {| response := {| status := 204; written := NoBody |}; after := store o;
         recorded := [info "deleting subscription"] ++ logged o
                     ++ [info "subscription deleted"] |}
  end.

Definition handleList (r : Request) (st : St) : reply :=
  match parseListFilter (Query r) with
  | Invalid msg =>
      {| response := Error msg 400; after := st;
         recorded := [warn "invalid list filter"] |}
  | Parsed filter =>
      let o := Service.List repo filter st in
      match res o with
      | Err _ =>
          {| response := Error "failed to list subscriptions" 500; after := store o;
             recorded := [debug "listing subscriptions"] ++ logged o
                         ++ [error_ "failed to list subscriptions"] |}
      | Ok subs =>
          {| response := {| status := 200;
                            written := JSONList
                                         (map subscriptionResponseFromDomain subs) |};
             after := store o;
             recorded := [debug "listing subscriptions"] ++ logged o
                         ++ [debug "subscriptions listed"] |}
      end
  end.

Definition handleSummary (r : Request) (st : St) : reply :=
  if negb (String.eqb (Method r) "GET")
  then {| response := {| status := 405; written := NoBody |}; after := st;
          recorded := [warn "method not allowed"] |}
  else
    match parseSummaryFilter (Query r) with
    | Invalid msg =>
        {| response := Error msg 400; after := st;
           recorded := [warn "invalid summary filter"] |}
    | Parsed summaryFilter =>
        let o := Service.Sum repo summaryFilter st in
        match res o with
        | Err _ =>
            {| response := Error "failed to calculate summary" 500;
               after := store o;
               recorded := [debug "calculating summary"] ++ logged o
                           ++ [error_ "failed to calculate summary"] |}
        | Ok total =>
            {| response := {| status := 200; written := JSONTotal total |};
               after := store o;
               recorded := [debug "calculating summary"] ++ logged o
                           ++ [info "summary calculated"] |}
        end
    end.

Definition prepend (l : list LogRecord) (r : reply) : reply :=
  {| response := response r; after := after r; recorded := l ++ recorded r |}.

Definition handleBase (r : Request) (st : St) : reply :=
  let l0 := [debug "handling base route"] in
  if String.eqb (Method r) "POST" then prepend l0 (handleCreate r st)
  else if String.eqb (Method r) "GET" then prepend l0 (handleList r st)
  else {| response := {| status := 405; written := NoBody |}; after := st;
          recorded := l0 ++ [warn "method not allowed"] |}.

Definition handleWithID (r : Request) (st : St) : reply :=
  let idStr := strings.TrimPrefix (Path r) (basePath ++ "/") in
  if decide (idStr = EmptyString)
  then {| response := {| status := 404; written := Text "404 page not found" |};
          after := st;
          recorded := [warn "subscription id is required"] |}
  else
    match uuid.Parse unicode_Digit unicode_LowerCase idStr with
    | Err _ =>
        {| response := Error "invalid subscription id" 400; after := st;
           recorded := [warn "failed to parse subscription id"] |}
    | Ok id =>
        let l0 := [debug "handling request with subscription id"] in
        if String.eqb (Method r) "GET" then prepend l0 (handleGet id st)
        else if String.eqb (Method r) "PUT" then prepend l0 (handleUpdate r id st)
        else if String.eqb (Method r) "DELETE" then prepend l0 (handleDelete id st)
        else {| response := {| status := 405; written := NoBody |}; after := st;
                recorded := l0 ++ [warn "method not allowed"] |}
    end.

End WithService.

End Unicode.

(** The request that sends a response's fields back. *)
Definition request_of (rs : subscriptionResponse) : subscriptionRequest :=
  {| rq_ServiceName := rs_ServiceName rs;
     rq_Price := rs_Price rs;
     rq_UserID := rs_UserID rs;
     rq_StartDate := rs_StartDate rs;
     rq_EndDate := rs_EndDate rs |}.

End handlers.

(** ** cmd/migrator

    The directory of the migrations is a map from the names of its
    entries to subdirectories and files; a file holds its contents or
    cannot be read.  The database is the table [schema_migrations],
    absent until it is created, and the rest, on which the statements of
    the migrations act through [exec]: what a statement does, and
    whether it fails, is a parameter.  [filepath.Join] puts the same
    directory in front of every name and [filepath.Base] takes it off
    again, so a file is kept by its name.  The connection works: of the
    statements of the migrator itself only the [INSERT] fails, on a
    version that the table holds. *)

Module migrator.

Inductive node : Type :=
| Subdirectory
| File (contents : result string).


(** The errors of [runMigrations], by the text that introduces them. *)
Inductive failure : Type :=
| DirectoryMissing
| AccessFailed (err : error)
| NotADirectory
| ReadDirFailed (err : error)
| ReadFileFailed (file : string) (err : error)
| ApplyFailed (file : string) (err : error)
| MarkFailed (version : string) (err : error).

(** [strings.HasSuffix] and [strings.TrimSuffix]. *)
Definition HasSuffix (s suffix : string) : bool :=
  (String.length suffix <=? String.length s)%nat
  && String.eqb
       (String.substring (String.length s - String.length suffix)
          (String.length suffix) s)
       suffix.


(** The order of [sort.Strings]: byte by byte. *)
Definition name_le (a b : string) : Prop := String.leb a b = true.

#[global] Instance name_le_dec a b : Decision (name_le a b).
Proof. unfold name_le. apply _. Defined.

Definition sort_Strings (l : list string) : list string := merge_sort name_le l.

Definition entry_le (a b : string * node) : Prop := name_le a.1 b.1.

#[global] Instance entry_le_dec a b : Decision (entry_le a b).
Proof. unfold entry_le. apply _. Defined.

(** [os.ReadDir]: the entries, sorted by name. *)
Definition ReadDir (d : gmap string node) : list (string * node) :=
  merge_sort entry_le (map_to_list d).

(** The loop over the entries: the files whose names end in
    [".up.sql"]. *)
Fixpoint collect (entries : list (string * node)) : list string :=
  match entries with
  | [] => []
  | (name, Subdirectory) :: rest => collect rest
  | (name, File _) :: rest =>
      if HasSuffix name ".up.sql" then name :: collect rest else collect rest
  end.



Record LogLine : Type := { line : string; version : string }.

Section WithDatabase.

Context {Rest : Type}.
Variable exec : string -> Rest -> option error * Rest.

Record Db : Type := {
  rest : Rest;
  schema_migrations : option (gset string)
}.





Record outcome : Type := {
  failed : option failure;
  database : Db;
  logs : list LogLine
}.





End WithDatabase.

(** The migration files of a directory, in the order of the loop. *)
Definition files_of (d : gmap string node) : list string :=
  sort_Strings (collect (ReadDir d)).



End migrator.

(** * Theorems *)

(** Case analysis on every integer comparison of the goal. *)
Ltac case_comparisons :=
  repeat match goal with
         | |- context [?x <=? ?y] => destruct (Z.leb_spec x y)
         | |- context [?x <? ?y] => destruct (Z.ltb_spec x y)
         | |- context [?x =? ?y] => destruct (Z.eqb_spec x y)
         end.

(** A value between known bounds is in the range of [int]. *)
Ltac int_range :=
  unfold GoInt.in_range, GoInt.min_int, GoInt.max_int; lia.

(** ** Go's [int] *)

Lemma wrap_in_range (z : Z) : GoInt.in_range z -> GoInt.wrap z = z.
Proof.
  unfold GoInt.in_range, GoInt.min_int, GoInt.max_int, GoInt.wrap.
  intros Hz. rewrite Z.mod_small; lia.
Qed.

Lemma wrap_bounds (z : Z) : GoInt.in_range (GoInt.wrap z).
Proof.
  unfold GoInt.in_range, GoInt.min_int, GoInt.max_int, GoInt.wrap.
  pose proof (Z.mod_pos_bound (z + 2 ^ 63) (2 ^ 64)). lia.
Qed.

Lemma wrap_add_r (a b : Z) : GoInt.wrap (a + GoInt.wrap b) = GoInt.wrap (a + b).
Proof.
  unfold GoInt.wrap. f_equal.
  replace (a + ((b + 2 ^ 63) mod 2 ^ 64 - 2 ^ 63) + 2 ^ 63)
    with (a + (b + 2 ^ 63) mod 2 ^ 64) by lia.
  rewrite Zplus_mod_idemp_r. f_equal. lia.
Qed.

Lemma wrap_add_l (a b : Z) : GoInt.wrap (GoInt.wrap a + b) = GoInt.wrap (a + b).
Proof. rewrite (Z.add_comm (GoInt.wrap a)), wrap_add_r. f_equal. lia. Qed.

(** ** Dates *)

Lemma daysIn_le_31 (m y : Z) : daysIn m y <= 31.
Proof.
  unfold daysIn. repeat match goal with |- context [if ?b then _ else _] => destruct b end; lia.
Qed.

Lemma date_bounds (t : Time) :
  - year_bound < Year t < year_bound /\ 1 <= Month t <= 12 /\ 1 <= Day t <= 31.
Proof.
  destruct t as [y m d Hv]; simpl. unfold valid_date in Hv.
  repeat (apply andb_prop in Hv; destruct Hv as [Hv ?]).
  pose proof (daysIn_le_31 m y). lia.
Qed.

Lemma Before_iff (t u : Time) :
  Before t u = true <->
  month_index t < month_index u \/ (same_month t u /\ Day t < Day u).
Proof.
  pose proof (date_bounds t) as (_ & Ht & _).
  pose proof (date_bounds u) as (_ & Hu & _).
  unfold Before, month_index, same_month.
  rewrite !orb_true_iff, !andb_true_iff, !orb_true_iff, !andb_true_iff.
  rewrite !Z.ltb_lt, !Z.eqb_eq. lia.
Qed.

Lemma same_month_index (t u : Time) :
  same_month t u <-> month_index t = month_index u.
Proof.
  pose proof (date_bounds t) as (_ & Ht & _).
  pose proof (date_bounds u) as (_ & Hu & _).
  unfold month_index, same_month. lia.
Qed.

(** A date that is not before another does not lie in an earlier month. *)
Lemma not_Before_index (t u : Time) :
  Before t u = false -> month_index u <= month_index t.
Proof.
  intros Hb. destruct (Z.lt_ge_cases (month_index t) (month_index u)) as [Hlt|]; [|lia].
  assert (Before t u = true) by (apply Before_iff; auto). congruence.
Qed.

(** ** [monthsBetween] *)

Lemma inclusive_months_index (a b : Time) :
  Spec.inclusive_months a b = month_index b - month_index a + 1.
Proof. unfold Spec.inclusive_months, month_index. lia. Qed.

(** No step of [monthsBetween] leaves the range of [int]. *)
Lemma monthsBetween_exact (a b : Time) :
  monthsBetween a b = Z.max 0 (Spec.inclusive_months a b).
Proof.
  pose proof (date_bounds a) as (Ha & Hma & _).
  pose proof (date_bounds b) as (Hb & Hmb & _).
  unfold year_bound in *.
  unfold monthsBetween, Spec.inclusive_months, GoInt.sub, GoInt.add, GoInt.mul.
  rewrite (wrap_in_range (Year b - Year a)) by int_range.
  rewrite (wrap_in_range (Month b - Month a)) by int_range.
  rewrite (wrap_in_range ((Year b - Year a) * 12)) by int_range.
  rewrite (wrap_in_range ((Year b - Year a) * 12 + (Month b - Month a))) by int_range.
  rewrite (wrap_in_range ((Year b - Year a) * 12 + (Month b - Month a) + 1))
    by int_range.
  destruct (Z.ltb_spec ((Year b - Year a) * 12 + (Month b - Month a) + 1) 0); lia.
Qed.

(** C4. For an overlap from [first] to [last], when [first] is not after
    [last] (and already when its month is not after the month of
    [last]), the month count that [Sum] uses is
    [(last.year - first.year) * 12 + (last.month - first.month) + 1], at
    least 1, and 1 when both lie in the same month; a subscription of price 50 for the
    single month 2023-06 adds exactly 50 inside the window 2023-01 to
    2023-12. *)
Theorem monthsBetween_inclusive :
  (forall first last : Time,
     (After first last = false ->
      month_index first <= month_index last)
     /\ (month_index first <= month_index last ->
         monthsBetween first last
         = (Year last - Year first) * 12
           + (Month last - Month first) + 1
         /\ 1 <= monthsBetween first last
         /\ (same_month first last ->
             monthsBetween first last = 1)))
  /\ sum_loop (Sample.window Sample.jan2023 Sample.dec2023)
       [Sample.sub Sample.id1 50 Sample.jun2023 (Some Sample.jun2023)] = 50.
Proof.
  split; [|reflexivity].
  intros a b. split.
  - unfold After. apply not_Before_index.
  - intros Hab.
    pose proof (inclusive_months_index a b) as Hidx.
    rewrite monthsBetween_exact.
    unfold Spec.inclusive_months in *.
    repeat split; try lia.
    intros Hsame%same_month_index. lia.
Qed.

Lemma monthsBetween_inclusive_witness :
  After Sample.jan2023 Sample.mar2023 = false
  /\ monthsBetween Sample.jan2023 Sample.mar2023 = 3.
Proof.
  split; [reflexivity|].
  destruct (proj1 monthsBetween_inclusive Sample.jan2023 Sample.mar2023)
    as [Horder Hcount].
  exact (proj1 (Hcount (Horder eq_refl))).
Defined.

(** C5 (as amended). For every two dates, in either order,
    [monthsBetween] is not negative: it is the inclusive count when that
    is positive and zero otherwise.  An iteration of [Sum] adds the price
    times such a count, in [int] arithmetic; for a price that is not
    negative and a product that fits an [int], what it adds is not
    negative. *)
Theorem monthsBetween_never_negative :
  forall start end_ : Time,
    0 <= monthsBetween start end_
    /\ monthsBetween start end_
       = Z.max 0 ((Year end_ - Year start) * 12 + (Month end_ - Month start) + 1)
    /\ (forall (input : SummaryFilter) (total : Z) (sub : Subscription),
          sum_step input total sub = total
          \/ exists months : Z,
               0 <= months
               /\ sum_step input total sub
                  = GoInt.add total (GoInt.mul (Price sub) months))
    /\ (forall price : Z,
          0 <= price ->
          GoInt.in_range (price * monthsBetween start end_) ->
          0 <= GoInt.mul price (monthsBetween start end_)).
Proof.
  intros a b. rewrite monthsBetween_exact. unfold Spec.inclusive_months.
  split; [lia|]. split; [reflexivity|]. split.
  - intros input total sub. unfold sum_step.
    destruct (After _ _); [left; reflexivity|right].
    eexists; split; [|reflexivity].
    rewrite monthsBetween_exact. lia.
  - intros price Hp Hr. unfold GoInt.mul. rewrite wrap_in_range by exact Hr. nia.
Qed.

Lemma monthsBetween_never_negative_witness :
  0 <= GoInt.mul 100 (monthsBetween Sample.jan2023 Sample.mar2023).
Proof.
  apply (proj2 (proj2 (proj2
           (monthsBetween_never_negative Sample.jan2023 Sample.mar2023)))).
  - lia.
  - vm_compute. split; discriminate.
Defined.

(** C5 as first stated fails in its last clause: the month count is never
    negative, but the product with the price is taken in [int]
    arithmetic.  A candidate of the largest [int] as price, over a window
    of two months, adds [-2] to the total. *)
Lemma contribution_negative_by_overflow :
  0 <= Price (Sample.sub Sample.id1 GoInt.max_int Sample.jan2023 None)
  /\ monthsBetween
       (overlapStart (Sample.window Sample.jan2023 Sample.feb2023)
          (Sample.sub Sample.id1 GoInt.max_int Sample.jan2023 None))
       (subEnd (Sample.window Sample.jan2023 Sample.feb2023)
          (Sample.sub Sample.id1 GoInt.max_int Sample.jan2023 None)) = 2
  /\ sum_step (Sample.window Sample.jan2023 Sample.feb2023) 0
       (Sample.sub Sample.id1 GoInt.max_int Sample.jan2023 None) = - 2.
Proof.
  split; [vm_compute; discriminate|]. split; reflexivity.
Qed.

(** ** The loop of [Sum] against the specification's wording *)

Lemma overlapStart_spec (input : SummaryFilter) (sub : Subscription) :
  overlapStart input sub = Spec.overlapStart input sub.
Proof. reflexivity. Qed.

Lemma subEnd_spec (input : SummaryFilter) (sub : Subscription) :
  subEnd input sub = Spec.effectiveEnd input sub.
Proof. reflexivity. Qed.

Lemma monthsOverlap_nonneg (input : SummaryFilter) (sub : Subscription) :
  0 <= Spec.monthsOverlap input sub.
Proof.
  unfold Spec.monthsOverlap. destruct (Spec.skipped input sub) eqn:Hs; [lia|].
  apply not_Before_index in Hs. rewrite inclusive_months_index. lia.
Qed.

(** The month count of an iteration that is not skipped is the count of
    the specification. *)
Lemma monthsBetween_overlap (input : SummaryFilter) (sub : Subscription) :
  Spec.skipped input sub = false ->
  monthsBetween (overlapStart input sub) (subEnd input sub)
  = Spec.monthsOverlap input sub.
Proof.
  intros Hs. unfold Spec.monthsOverlap. rewrite Hs.
  rewrite monthsBetween_exact, overlapStart_spec, subEnd_spec.
  apply not_Before_index in Hs. rewrite inclusive_months_index. lia.
Qed.

Lemma sum_step_wrap (input : SummaryFilter) (x : Z) (sub : Subscription) :
  sum_step input (GoInt.wrap x) sub
  = GoInt.wrap (x + Spec.contribution input sub).
Proof.
  unfold sum_step, Spec.contribution, After.
  rewrite overlapStart_spec, subEnd_spec.
  fold (Spec.skipped input sub).
  destruct (Spec.skipped input sub) eqn:Hs.
  - unfold Spec.monthsOverlap. rewrite Hs. f_equal. lia.
  - rewrite <- overlapStart_spec, <- subEnd_spec, (monthsBetween_overlap _ _ Hs).
    unfold GoInt.add, GoInt.mul. now rewrite wrap_add_r, wrap_add_l.
Qed.

Lemma fold_sum_step_wrap (input : SummaryFilter) (subs : list Subscription) :
  forall x : Z,
    fold_left (sum_step input) subs (GoInt.wrap x)
    = GoInt.wrap (x + Spec.total input subs).
Proof.
  induction subs as [|sub rest IH]; intros x; simpl.
  - f_equal. lia.
  - rewrite sum_step_wrap, IH. f_equal. lia.
Qed.

Lemma sum_loop_wrap (input : SummaryFilter) (subs : list Subscription) :
  sum_loop input subs = GoInt.wrap (Spec.total input subs).
Proof.
  unfold sum_loop. change 0 with (GoInt.wrap 0) at 1.
  now rewrite fold_sum_step_wrap.
Qed.

Lemma total_nonneg (input : SummaryFilter) (subs : list Subscription) :
  Forall (fun s => 0 <= Price s) subs -> 0 <= Spec.total input subs.
Proof.
  induction 1 as [|sub rest Hp _ IH]; simpl; [lia|].
  unfold Spec.contribution. pose proof (monthsOverlap_nonneg input sub). nia.
Qed.

Lemma Sum_result {St : Type} (repo : Repository St) (input : SummaryFilter)
    (st st' : St) (subs : list Subscription) :
  ListSubscriptions repo (Service.sum_filter input) st = (Ok subs, st') ->
  Service.Sum repo input st
  = {| res := Ok (sum_loop input subs); store := st'; logged := [] |}.
Proof. intros H. unfold Service.Sum. now rewrite H. Qed.

(** The three scenarios of the specification, on the storage adapter: an
    open-ended subscription of price 100 from 2023-01 over the window
    2023-01 to 2023-03 gives 300; one of price 50 for 2023-06 alone over
    2023-01 to 2023-12 gives 50; one that starts in 2024-01 gives 0 for a
    window that ends in 2023-12. *)
Example Sum_scenarios :
  res (Service.Sum Postgres.Storage
         (Sample.window Sample.jan2023 Sample.mar2023)
         (Sample.store {[ Sample.id1 := Sample.row 100 Sample.jan2023 None ]}))
  = Ok 300
  /\ res (Service.Sum Postgres.Storage
            (Sample.window Sample.jan2023 Sample.dec2023)
            (Sample.store
               {[ Sample.id1 := Sample.row 50 Sample.jun2023 (Some Sample.jun2023) ]}))
     = Ok 50
  /\ res (Service.Sum Postgres.Storage
            (Sample.window Sample.jan2023 Sample.dec2023)
            (Sample.store {[ Sample.id1 := Sample.row 10 Sample.jan2024 None ]}))
     = Ok 0.
Proof. repeat split; vm_compute; reflexivity. Qed.

(** C1 (as amended). [Sum] asks the repository for the filter whose
    active period is the window and whose user and service name are those
    of the summary; on the candidates it gets, it returns the sum of
    [price * monthsOverlap] reduced to Go's 64-bit [int] by wrap-around,
    hence that sum itself whenever it fits an [int], and 0 for no
    candidate; it returns no error. *)
Theorem Sum_is_wrapped_total :
  forall (St : Type) (repo : Repository St) (input : SummaryFilter)
         (st st' : St) (subs : list Subscription),
    ListSubscriptions repo (Service.sum_filter input) st = (Ok subs, st') ->
    (ActivePeriodFrom (Service.sum_filter input) = Some (PeriodStart input)
     /\ ActivePeriodTo (Service.sum_filter input) = Some (PeriodEnd input)
     /\ lf_UserID (Service.sum_filter input) = sf_UserID input
     /\ lf_ServiceName (Service.sum_filter input) = sf_ServiceName input)
    /\ res (Service.Sum repo input st) = Ok (GoInt.wrap (Spec.total input subs))
    /\ (GoInt.in_range (Spec.total input subs) ->
        res (Service.Sum repo input st) = Ok (Spec.total input subs))
    /\ (subs = [] -> res (Service.Sum repo input st) = Ok 0).
Proof.
  intros St repo input st st' subs Hlist.
  rewrite (Sum_result repo input st st' subs Hlist); simpl.
  rewrite sum_loop_wrap.
  repeat split.
  - intros Hr. now rewrite wrap_in_range.
  - intros ->. reflexivity.
Qed.

Lemma Sum_is_wrapped_total_witness :
  res (Service.Sum
         (Memory.Listing [Sample.sub Sample.id1 100 Sample.jan2023 None])
         (Sample.window Sample.jan2023 Sample.mar2023) tt)
  = Ok 300.
Proof.
  exact (proj1 (proj2 (Sum_is_wrapped_total unit
           (Memory.Listing [Sample.sub Sample.id1 100 Sample.jan2023 None])
           (Sample.window Sample.jan2023 Sample.mar2023) tt tt
           [Sample.sub Sample.id1 100 Sample.jan2023 None] eq_refl))).
Defined.

(** C1 as first stated fails where the exact sum leaves the range of
    [int]: one open-ended subscription of price [2^62] over a window of
    two months has the exact total [2^63], and [Sum] returns [-2^63]. *)
Lemma Sum_exact_total_overflows :
  ListSubscriptions
    (Memory.Listing [Sample.sub Sample.id1 (2 ^ 62) Sample.jan2023 None])
    (Service.sum_filter (Sample.window Sample.jan2023 Sample.feb2023)) tt
  = (Ok [Sample.sub Sample.id1 (2 ^ 62) Sample.jan2023 None], tt)
  /\ Spec.total (Sample.window Sample.jan2023 Sample.feb2023)
       [Sample.sub Sample.id1 (2 ^ 62) Sample.jan2023 None] = 2 ^ 63
  /\ res (Service.Sum
            (Memory.Listing [Sample.sub Sample.id1 (2 ^ 62) Sample.jan2023 None])
            (Sample.window Sample.jan2023 Sample.feb2023) tt)
     = Ok (- 2 ^ 63)
  /\ res (Service.Sum
            (Memory.Listing [Sample.sub Sample.id1 (2 ^ 62) Sample.jan2023 None])
            (Sample.window Sample.jan2023 Sample.feb2023) tt)
     <> Ok (Spec.total (Sample.window Sample.jan2023 Sample.feb2023)
              [Sample.sub Sample.id1 (2 ^ 62) Sample.jan2023 None]).
Proof.
  repeat split; try reflexivity.
  vm_compute. discriminate.
Qed.

(** C10 (as amended). When every candidate has a non-negative price and
    the exact total does not exceed the largest [int], [Sum] returns a
    total that is not negative (it is the exact total). *)
Theorem Sum_nonneg :
  forall (St : Type) (repo : Repository St) (input : SummaryFilter)
         (st st' : St) (subs : list Subscription),
    ListSubscriptions repo (Service.sum_filter input) st = (Ok subs, st') ->
    Forall (fun s => 0 <= Price s) subs ->
    Spec.total input subs <= GoInt.max_int ->
    exists total : Z,
      res (Service.Sum repo input st) = Ok total
      /\ 0 <= total
      /\ total = Spec.total input subs.
Proof.
  intros St repo input st st' subs Hlist Hprices Hmax.
  pose proof (total_nonneg input subs Hprices) as Hnn.
  exists (Spec.total input subs).
  rewrite (Sum_result repo input st st' subs Hlist); simpl.
  rewrite sum_loop_wrap, wrap_in_range; [auto|].
  unfold GoInt.in_range, GoInt.min_int. lia.
Qed.

Lemma Sum_nonneg_witness :
  exists total : Z,
    res (Service.Sum
           (Memory.Listing
              [Sample.sub Sample.id1 50 Sample.jun2023 (Some Sample.jun2023);
               Sample.sub Sample.id2 0 Sample.jan2024 None])
           (Sample.window Sample.jan2023 Sample.dec2023) tt)
    = Ok total
    /\ 0 <= total /\ total = 50.
Proof.
  apply (Sum_nonneg unit
           (Memory.Listing
              [Sample.sub Sample.id1 50 Sample.jun2023 (Some Sample.jun2023);
               Sample.sub Sample.id2 0 Sample.jan2024 None])
           (Sample.window Sample.jan2023 Sample.dec2023) tt tt
           [Sample.sub Sample.id1 50 Sample.jun2023 (Some Sample.jun2023);
            Sample.sub Sample.id2 0 Sample.jan2024 None]).
  - reflexivity.
  - repeat constructor; simpl; lia.
  - vm_compute. discriminate.
Defined.

(** C10 as first stated fails by overflow: two candidates of the
    non-negative price [2^62], one month each, and [Sum] returns
    [-2^63]. *)
Lemma Sum_negative_by_overflow :
  Forall (fun s => 0 <= Price s)
    [Sample.sub Sample.id1 (2 ^ 62) Sample.jan2023 (Some Sample.jan2023);
     Sample.sub Sample.id2 (2 ^ 62) Sample.jan2023 (Some Sample.jan2023)]
  /\ GoInt.in_range (2 ^ 62)
  /\ res (Service.Sum
            (Memory.Listing
               [Sample.sub Sample.id1 (2 ^ 62) Sample.jan2023 (Some Sample.jan2023);
                Sample.sub Sample.id2 (2 ^ 62) Sample.jan2023 (Some Sample.jan2023)])
            (Sample.window Sample.jan2023 Sample.jan2023) tt)
     = Ok (- 2 ^ 63)
  /\ - 2 ^ 63 < 0.
Proof.
  split; [repeat constructor; simpl; lia|].
  split; [int_range|].
  split; [reflexivity|lia].
Qed.

(** ** Day of month

    [Before] and [After] compare dates, not months.  Between aligned dates
    they agree with the comparison of the months. *)

Lemma aligned_sym (t u : Time) : Spec.aligned t u -> Spec.aligned u t.
Proof. unfold Spec.aligned, same_month. intros H [Hy Hm]. symmetry. apply H. auto. Qed.

Lemma Before_aligned (t u : Time) :
  Spec.aligned t u -> Before t u = (month_index t <? month_index u).
Proof.
  intros Hal. destruct (Before t u) eqn:Hb.
  - apply Before_iff in Hb as [Hlt|[Hsame Hday]].
    + symmetry. now apply Z.ltb_lt.
    + specialize (Hal Hsame). lia.
  - symmetry. apply Z.ltb_ge. now apply not_Before_index.
Qed.

Lemma overlapStart_index (input : SummaryFilter) (sub : Subscription) :
  Spec.aligned (StartMonth sub) (PeriodStart input) ->
  month_index (overlapStart input sub)
  = Z.max (month_index (StartMonth sub)) (month_index (PeriodStart input)).
Proof.
  intros Hal%aligned_sym. unfold overlapStart, maxTime, After.
  rewrite (Before_aligned _ _ Hal).
  destruct (Z.ltb_spec (month_index (PeriodStart input)) (month_index (StartMonth sub))); lia.
Qed.

Lemma subEnd_index (input : SummaryFilter) (sub : Subscription) :
  match EndMonth sub with
  | Some e => Spec.aligned e (PeriodEnd input)
  | None => True
  end ->
  month_index (subEnd input sub)
  = match EndMonth sub with
    | Some e => Z.min (month_index e) (month_index (PeriodEnd input))
    | None => month_index (PeriodEnd input)
    end.
Proof.
  unfold subEnd. destruct (EndMonth sub) as [e|]; [|reflexivity].
  intros Hal. rewrite (Before_aligned _ _ Hal).
  destruct (Z.ltb_spec (month_index e) (month_index (PeriodEnd input))); lia.
Qed.

Lemma subEnd_overlapStart_aligned (input : SummaryFilter) (sub : Subscription) :
  Spec.day_consistent input sub ->
  Spec.aligned (subEnd input sub) (overlapStart input sub).
Proof.
  intros (H1 & H2 & H3 & H4).
  unfold subEnd, overlapStart, maxTime.
  destruct (After (StartMonth sub) (PeriodStart input));
    destruct (EndMonth sub) as [e|];
    try destruct (Before e (PeriodEnd input));
    try destruct H4 as (H4 & H5 & H6);
    auto using aligned_sym.
Qed.

Lemma skip_index (input : SummaryFilter) (sub : Subscription) :
  Spec.day_consistent input sub ->
  After (overlapStart input sub) (subEnd input sub)
  = (month_index (subEnd input sub) <? month_index (overlapStart input sub)).
Proof.
  intros Hc. unfold After.
  apply Before_aligned, subEnd_overlapStart_aligned, Hc.
Qed.

(** Inputs that agree month by month have the same months of overlap. *)
Lemma same_months_indices (input input' : SummaryFilter) (s s' : Subscription) :
  same_month (PeriodStart input) (PeriodStart input') ->
  same_month (PeriodEnd input) (PeriodEnd input') ->
  Spec.same_months s s' ->
  Spec.day_consistent input s ->
  Spec.day_consistent input' s' ->
  month_index (overlapStart input s) = month_index (overlapStart input' s')
  /\ month_index (subEnd input s) = month_index (subEnd input' s').
Proof.
  intros Hps%same_month_index Hpe%same_month_index (Hp & Hst%same_month_index & He) Hc Hc'.
  pose proof Hc as (H1 & _ & _ & H4). pose proof Hc' as (H1' & _ & _ & H4').
  rewrite !overlapStart_index by assumption.
  rewrite !subEnd_index
    by (destruct (EndMonth s), (EndMonth s'); tauto).
  split; [lia|].
  destruct (EndMonth s), (EndMonth s'); try tauto.
  apply same_month_index in He. lia.
Qed.

Lemma sum_step_same_months (input input' : SummaryFilter) (s s' : Subscription) :
  same_month (PeriodStart input) (PeriodStart input') ->
  same_month (PeriodEnd input) (PeriodEnd input') ->
  Spec.same_months s s' ->
  Spec.day_consistent input s ->
  Spec.day_consistent input' s' ->
  After (overlapStart input s) (subEnd input s)
  = After (overlapStart input' s') (subEnd input' s')
  /\ monthsBetween (overlapStart input s) (subEnd input s)
     = monthsBetween (overlapStart input' s') (subEnd input' s')
  /\ forall total : Z, sum_step input total s = sum_step input' total s'.
Proof.
  intros Hps Hpe Hsm Hc Hc'.
  destruct (same_months_indices _ _ _ _ Hps Hpe Hsm Hc Hc') as [Ho He].
  assert (Hskip : After (overlapStart input s) (subEnd input s)
                  = After (overlapStart input' s') (subEnd input' s'))
    by (rewrite !skip_index by assumption; now rewrite Ho, He).
  assert (Hmonths : monthsBetween (overlapStart input s) (subEnd input s)
                    = monthsBetween (overlapStart input' s') (subEnd input' s'))
    by (rewrite !monthsBetween_exact, !inclusive_months_index; now rewrite Ho, He).
  repeat split; auto.
  intros total. unfold sum_step. rewrite Hskip, Hmonths.
  now destruct Hsm as [-> _].
Qed.

Lemma sum_loop_same_months (input input' : SummaryFilter)
    (subs subs' : list Subscription) :
  same_month (PeriodStart input) (PeriodStart input') ->
  same_month (PeriodEnd input) (PeriodEnd input') ->
  Forall2 Spec.same_months subs subs' ->
  Forall (Spec.day_consistent input) subs ->
  Forall (Spec.day_consistent input') subs' ->
  sum_loop input subs = sum_loop input' subs'.
Proof.
  intros Hps Hpe Hall. unfold sum_loop. generalize 0 as total.
  induction Hall as [|s s' rest rest' Hsm _ IH]; intros total Hc Hc'; [reflexivity|].
  apply Forall_cons_1 in Hc as [Hs Hrest].
  apply Forall_cons_1 in Hc' as [Hs' Hrest'].
  simpl.
  destruct (sum_step_same_months _ _ _ _ Hps Hpe Hsm Hs Hs') as (_ & _ & ->).
  now apply IH.
Qed.

(** C2 (as amended). The month count ignores the day of the month.  The
    comparisons of [Sum] do not; yet take two inputs of [Sum] that agree
    month by month: the windows, and the candidates one by one with equal
    prices.  If in each input any two dates of a candidate and the window
    that lie in the same month also lie on the same day, then [Sum] skips
    the same candidates, counts the same months for each, and returns the
    same total. *)
Theorem Sum_same_months :
  (forall a a' b b' : Time,
     same_month a a' -> same_month b b' ->
     monthsBetween a b = monthsBetween a' b')
  /\ (forall (St St' : Type) (repo : Repository St) (repo' : Repository St')
             (input input' : SummaryFilter) (st st1 : St) (st' st1' : St')
             (subs subs' : list Subscription),
        ListSubscriptions repo (Service.sum_filter input) st = (Ok subs, st1) ->
        ListSubscriptions repo' (Service.sum_filter input') st' = (Ok subs', st1') ->
        same_month (PeriodStart input) (PeriodStart input') ->
        same_month (PeriodEnd input) (PeriodEnd input') ->
        Forall2 Spec.same_months subs subs' ->
        Forall (Spec.day_consistent input) subs ->
        Forall (Spec.day_consistent input') subs' ->
        Forall2 (fun s s' =>
                   After (overlapStart input s) (subEnd input s)
                   = After (overlapStart input' s') (subEnd input' s')
                   /\ monthsBetween (overlapStart input s) (subEnd input s)
                      = monthsBetween (overlapStart input' s') (subEnd input' s'))
          subs subs'
        /\ res (Service.Sum repo input st) = res (Service.Sum repo' input' st')).
Proof.
  split.
  { intros a a' b b' Ha%same_month_index Hb%same_month_index.
    rewrite !monthsBetween_exact, !inclusive_months_index. now rewrite Ha, Hb. }
  intros St St' repo repo' input input' st st1 st' st1' subs subs'
         Hl Hl' Hps Hpe Hall Hc Hc'.
  split.
  - clear Hl Hl'. induction Hall as [|s s' rest rest' Hsm _ IH]; [constructor|].
    apply Forall_cons_1 in Hc as [Hs Hrest].
    apply Forall_cons_1 in Hc' as [Hs' Hrest'].
    constructor; [|now apply IH].
    destruct (sum_step_same_months _ _ _ _ Hps Hpe Hsm Hs Hs') as (? & ? & _); auto.
  - rewrite (Sum_result _ _ _ _ _ Hl), (Sum_result _ _ _ _ _ Hl'); simpl.
    f_equal. now apply sum_loop_same_months.
Qed.

Lemma Sum_same_months_witness :
  res (Service.Sum
         (Memory.Listing [Sample.sub Sample.id1 100 Sample.jan2023 None])
         (Sample.window Sample.jan2023 Sample.mar2023) tt)
  = res (Service.Sum
           (Memory.Listing [Sample.sub Sample.id1 100 Sample.jan2023_15 None])
           (Sample.window Sample.jan2023_15 Sample.mar2023_15) tt).
Proof.
  refine (proj2 (proj2 Sum_same_months unit unit
           (Memory.Listing [Sample.sub Sample.id1 100 Sample.jan2023 None])
           (Memory.Listing [Sample.sub Sample.id1 100 Sample.jan2023_15 None])
           (Sample.window Sample.jan2023 Sample.mar2023)
           (Sample.window Sample.jan2023_15 Sample.mar2023_15)
           tt tt tt tt
           [Sample.sub Sample.id1 100 Sample.jan2023 None]
           [Sample.sub Sample.id1 100 Sample.jan2023_15 None]
           eq_refl eq_refl _ _ _ _ _)).
  - split; reflexivity.
  - split; reflexivity.
  - repeat constructor.
  - repeat constructor; intros [Hy Hm]; simpl in *; lia.
  - repeat constructor; intros [Hy Hm]; simpl in *; lia.
Defined.

(** C2 as first stated fails: the day of a month decides comparisons
    between dates of the same month.  For the window 2023-01-01 to
    2023-01-10, a candidate that starts on 2023-01-15 is skipped and one
    that starts on 2023-01-01 counts one month; with these rows in the
    table, [Sum] returns 0 and 100. *)
Lemma Sum_depends_on_day :
  same_month Sample.jan2023_15 Sample.jan2023
  /\ After (overlapStart (Sample.window Sample.jan2023 Sample.jan2023_10)
              (Sample.sub Sample.id1 100 Sample.jan2023_15 None))
           (subEnd (Sample.window Sample.jan2023 Sample.jan2023_10)
              (Sample.sub Sample.id1 100 Sample.jan2023_15 None)) = true
  /\ After (overlapStart (Sample.window Sample.jan2023 Sample.jan2023_10)
              (Sample.sub Sample.id1 100 Sample.jan2023 None))
           (subEnd (Sample.window Sample.jan2023 Sample.jan2023_10)
              (Sample.sub Sample.id1 100 Sample.jan2023 None)) = false
  /\ sum_loop (Sample.window Sample.jan2023 Sample.jan2023_10)
       [Sample.sub Sample.id1 100 Sample.jan2023_15 None] = 0
  /\ sum_loop (Sample.window Sample.jan2023 Sample.jan2023_10)
       [Sample.sub Sample.id1 100 Sample.jan2023 None] = 100
  /\ res (Service.Sum Postgres.Storage
            (Sample.window Sample.jan2023 Sample.jan2023_10)
            (Sample.store {[ Sample.id1 := Sample.row 100 Sample.jan2023_15 None ]}))
     = Ok 0
  /\ res (Service.Sum Postgres.Storage
            (Sample.window Sample.jan2023 Sample.jan2023_10)
            (Sample.store {[ Sample.id1 := Sample.row 100 Sample.jan2023 None ]}))
     = Ok 100.
Proof.
  split; [split; reflexivity|].
  repeat split; vm_compute; reflexivity.
Qed.

(** ** The listing of the storage adapter *)

(** Every placeholder of the assembled WHERE clause has its argument, and
    a row passes the clause exactly when it passes the filters that are
    set. *)
Lemma list_conditions_sound (f : ListFilter) (s : Subscription) :
  forallb (Postgres.placeholders_bound (Postgres.list_conditions f).2)
    (Postgres.list_conditions f).1 = true
  /\ Postgres.passes (Postgres.list_conditions f).2 (Postgres.list_conditions f).1 s
     = Spec.other_filters f s
       && match ActivePeriodFrom f, ActivePeriodTo f with
          | Some from, Some to => Spec.overlaps from to s
          | _, _ => true
          end.
Proof.
  destruct f as [u n sf st af at_ l o].
  unfold Postgres.list_conditions, Spec.other_filters, Spec.overlaps, Postgres.passes; simpl.
  destruct u, n, sf, st, af, at_; cbn.
  all: split; [reflexivity|].
  all: rewrite ?andb_true_r, ?andb_true_l, ?andb_assoc; try reflexivity.
  all: destruct (EndMonth s); cbn; rewrite ?andb_true_r, ?andb_true_l, ?andb_assoc; reflexivity.
Qed.

Lemma page_paginate (f : ListFilter) (l : list Subscription) :
  Postgres.page (if Limit f >? 0 then Some (Limit f) else None)
    (if Offset f >? 0 then Some (Offset f) else None) l
  = Spec.paginate f l.
Proof.
  unfold Postgres.page, Spec.paginate.
  destruct (Offset f >? 0), (Limit f >? 0); reflexivity.
Qed.

Lemma ListSubscriptions_eval (f : ListFilter) (st : Postgres.Store) :
  Postgres.ListSubscriptions f st
  = (Ok (Spec.paginate f
           (Postgres.order_by_start
              (filter (fun s =>
                         Spec.other_filters f s
                         && match ActivePeriodFrom f, ActivePeriodTo f with
                            | Some from, Some to => Spec.overlaps from to s
                            | _, _ => true
                            end = true)
                 (Postgres.all_rows (Postgres.rows st))))), st).
Proof.
  unfold Postgres.ListSubscriptions, Postgres.run_query, Postgres.list_query.
  pose proof (fun s => list_conditions_sound f s) as Hs.
  destruct (Postgres.list_conditions f) as [conds args]; simpl in *.
  destruct (Hs (Sample.sub Sample.id1 0 Sample.jan2023 None)) as [-> _].
  rewrite page_paginate. do 4 f_equal.
  apply list_filter_iff. intros s. destruct (Hs s) as [_ ->]. reflexivity.
Qed.






(** ** Update and delete through the storage adapter *)

Lemma Update_eval (st : Postgres.Store) (id : UUID) (input : UpdateInput) :
  Service.Update Postgres.Storage id input st
  = match Postgres.rows st !! id with
    | None =>
        {| res := Err ErrNotFound; store := st;
           logged := [info "updating subscription"; warn "subscription not found"] |}
    | Some old =>
        match Postgres.check_row (Postgres.assign old input) with
        | Some e =>
            {| res := Err (Wrapf "storage.postgresql.UpdateSubscription" e);
               store := st;
               logged := [info "updating subscription"]
                         ++ (if errors_Is
                                  (Wrapf "storage.postgresql.UpdateSubscription" e)
                                  ErrNotFound
                             then [warn "subscription not found"]
                             else [error_ "failed to update subscription"]) |}
        | None =>
            {| res := Ok (Postgres.scan id (Postgres.assign old input));
               store := Postgres.with_rows st
                          (<[id := Postgres.assign old input]> (Postgres.rows st));
               logged := [info "updating subscription"] |}
        end
    end.
Proof.
  unfold Service.Update; simpl.
  unfold Postgres.UpdateSubscription, Postgres.exec_update.
  destruct (Postgres.rows st !! id) as [old|]; [|reflexivity].
  destruct (Postgres.check_row (Postgres.assign old input)) as [e|] eqn:Hc;
    [|reflexivity].
  simpl.
  assert (He : errors_Is e ErrNoRows = false).
  { unfold Postgres.check_row in Hc.
    repeat match type of Hc with
           | (if ?b then _ else _) = _ => destruct b
           end; inversion Hc; reflexivity. }
  now rewrite He.
Qed.




Lemma Delete_eval (st : Postgres.Store) (id : UUID) :
  Service.Delete Postgres.Storage id st
  = match Postgres.rows st !! id with
    | None =>
        {| res := Err ErrNotFound; store := st;
           logged := [info "deleting subscription"; warn "subscription not found"] |}
    | Some _ =>
        {| res := Ok tt;
           store := Postgres.with_rows st (delete id (Postgres.rows st));
           logged := [info "deleting subscription"] |}
    end.
Proof.
  unfold Service.Delete; simpl.
  unfold Postgres.DeleteSubscription, Postgres.exec_delete.
  destruct (Postgres.rows st !! id); reflexivity.
Qed.



(** ** Errors of the repository *)

(** C8. Whatever error the repository call of a service operation
    returns, the operation returns that same error, and so never a
    success: [ErrNotFound] reaches the caller as it is, and so does every
    other error. *)
Theorem Service_returns_repository_error :
  forall (St : Type) (repo : Repository St) (st st' : St) (err : error),
    (forall input : CreateInput,
       CreateSubscription repo input st = (Err err, st') ->
       res (Service.Create repo input st) = Err err)
    /\ (forall id : UUID,
          GetSubscription repo id st = (Err err, st') ->
          res (Service.Get repo id st) = Err err)
    /\ (forall (id : UUID) (input : UpdateInput),
          UpdateSubscription repo id input st = (Err err, st') ->
          res (Service.Update repo id input st) = Err err)
    /\ (forall id : UUID,
          DeleteSubscription repo id st = (Err err, st') ->
          res (Service.Delete repo id st) = Err err)
    /\ (forall filter : ListFilter,
          ListSubscriptions repo filter st = (Err err, st') ->
          res (Service.List repo filter st) = Err err)
    /\ (forall input : SummaryFilter,
          ListSubscriptions repo (Service.sum_filter input) st = (Err err, st') ->
          res (Service.Sum repo input st) = Err err).
Proof.
  intros St repo st st' err.
  unfold Service.Create, Service.Get, Service.Update, Service.Delete,
    Service.List, Service.Sum.
  repeat split; intros; match goal with H : _ = (Err err, st') |- _ => rewrite H end;
    reflexivity.
Qed.

Lemma Service_returns_repository_error_witness :
  res (Service.Get (Memory.Failing ErrNotFound) Sample.id1 tt) = Err ErrNotFound
  /\ res (Service.Sum (Memory.Failing (PqError "connection refused"))
            (Sample.window Sample.jan2023 Sample.mar2023) tt)
     = Err (PqError "connection refused").
Proof.
  split.
  - exact (proj1 (proj2 (Service_returns_repository_error unit
             (Memory.Failing ErrNotFound) tt tt ErrNotFound))
           Sample.id1 eq_refl).
  - exact (proj2 (proj2 (proj2 (proj2 (proj2
             (Service_returns_repository_error unit
                (Memory.Failing (PqError "connection refused")) tt tt
                (PqError "connection refused"))))))
           (Sample.window Sample.jan2023 Sample.mar2023) eq_refl).
Defined.

(** ** [uuid.Parse] *)

(** [Parse] consults the tables of package [unicode] only at the runes of
    its input: tables that agree there give the same result. *)
Lemma flat_map_agree {A B : Type} (f g : A -> list B) (l : list A) :
  Forall (fun a => f a = g a) l -> flat_map f l = flat_map g l.
Proof. induction 1 as [|a l Ha _ IH]; simpl; [reflexivity|]. now rewrite Ha, IH. Qed.

Lemma forallb_agree {A : Type} (f g : A -> bool) (l : list A) :
  Forall (fun a => f a = g a) l -> forallb f l = forallb g l.
Proof. induction 1 as [|a l Ha _ IH]; simpl; [reflexivity|]. now rewrite Ha, IH. Qed.

Lemma ToLower_agree (L1 L2 : Z -> Z) (p : list Z) :
  Forall (fun ir : Z * Z => uuid.unicode_ToLower L1 ir.2 = uuid.unicode_ToLower L2 ir.2)
    (uuid.range p) ->
  uuid.ToLower L1 p = uuid.ToLower L2 p.
Proof.
  intros Hag. unfold uuid.ToLower.
  destruct (forallb _ p); [reflexivity|].
  apply flat_map_agree.
  eapply Forall_impl; [exact Hag|]. simpl. now intros ir ->.
Qed.

Lemma Parse_agree (D1 D2 : Z -> bool) (L1 L2 : Z -> Z) (s : string) :
  Forall (fun ir : Z * Z => uuid.unicode_ToLower L1 ir.2 = uuid.unicode_ToLower L2 ir.2)
    (uuid.range (uuid.bytes s)) ->
  Forall (fun ir : Z * Z => uuid.IsDigit D1 ir.2 = uuid.IsDigit D2 ir.2)
    (uuid.range (uuid.ToLower L2 (uuid.bytes s))) ->
  uuid.Parse D1 L1 s = uuid.Parse D2 L2 s.
Proof.
  intros HL HD. unfold uuid.Parse.
  destruct (negb (uuid.len s =? 36)); [reflexivity|].
  rewrite (ToLower_agree L1 L2 _ HL).
  rewrite (forallb_agree (uuid.rune_ok D1) (uuid.rune_ok D2)); [reflexivity|].
  eapply Forall_impl; [exact HD|].
  intros [i r] Hr; simpl in *. unfold uuid.rune_ok, uuid.isHex. now rewrite Hr.
Qed.

(** C9, at the input that shows the defect.  The string of the bytes
    D9 A0 (ARABIC-INDIC DIGIT ZERO, a decimal digit of [unicode.Digit]
    without a lower-case mapping) followed by
    ["000000-0000-0000-0000-000000000000"] has 36 bytes and is not in the
    8-4-4-4-12 hexadecimal layout, and [Parse] accepts it and returns
    it. *)
Theorem Parse_accepts_unicode_digit :
  forall (unicode_Digit : Z -> bool) (unicode_LowerCase : Z -> Z),
    unicode_Digit 0x660 = true ->
    unicode_LowerCase 0x660 = 0x660 ->
    uuid.len uuid.arabic_zero_id = 36
    /\ uuid.canonical_layout uuid.arabic_zero_id = false
    /\ uuid.Parse unicode_Digit unicode_LowerCase uuid.arabic_zero_id
       = Ok uuid.arabic_zero_id.
Proof.
  intros D L HD HL.
  split; [reflexivity|]. split; [reflexivity|].
  rewrite (Parse_agree D (uuid.between 0x660 0x669) L (fun r => r)).
  - vm_compute. reflexivity.
  - let l := eval vm_compute in (uuid.range (uuid.bytes uuid.arabic_zero_id)) in
    change (uuid.range (uuid.bytes uuid.arabic_zero_id)) with l.
    repeat constructor; simpl; try reflexivity.
    unfold uuid.unicode_ToLower; simpl. exact HL.
  - let l := eval vm_compute in
      (uuid.range (uuid.ToLower (fun r => r) (uuid.bytes uuid.arabic_zero_id))) in
    change (uuid.range (uuid.ToLower (fun r => r) (uuid.bytes uuid.arabic_zero_id)))
      with l.
    repeat constructor; simpl; try reflexivity.
    unfold uuid.IsDigit; simpl. exact HD.
Qed.

Lemma Parse_accepts_unicode_digit_witness :
  uuid.Parse (uuid.between 0x660 0x669) (fun r => r) uuid.arabic_zero_id
  = Ok uuid.arabic_zero_id.
Proof.
  exact (proj2 (proj2 (Parse_accepts_unicode_digit
           (uuid.between 0x660 0x669) (fun r => r) eq_refl eq_refl))).
Defined.

(** ** [uuid.Parse] on ASCII strings *)

Lemma bytes_bounded (s : string) : Forall (fun b => 0 <= b < 256) (uuid.bytes s).
Proof.
  induction s as [|a s IH]; simpl; constructor; [|exact IH].
  unfold uuid.byte_of. pose proof (N_ascii_bounded a). lia.
Qed.

Lemma of_bytes_bytes (s : string) : uuid.of_bytes (uuid.bytes s) = s.
Proof.
  induction s as [|a s IH]; simpl; [reflexivity|].
  unfold uuid.ascii_of, uuid.byte_of. now rewrite N2Z.id, ascii_N_embedding, IH.
Qed.

Lemma bytes_of_bytes (l : list Z) :
  Forall (fun b => 0 <= b < 256) l -> uuid.bytes (uuid.of_bytes l) = l.
Proof.
  induction 1 as [|b l Hb _ IH]; simpl; [reflexivity|].
  unfold uuid.byte_of, uuid.ascii_of.
  rewrite N_ascii_embedding by lia. rewrite Z2N.id by lia. now rewrite IH.
Qed.

Lemma lower_byte_cases (b : Z) :
  (65 <= b <= 90 /\ uuid.lower_byte b = b + 32)
  \/ (~ 65 <= b <= 90 /\ uuid.lower_byte b = b).
Proof.
  unfold uuid.lower_byte, uuid.between.
  destruct (Z.leb_spec 65 b), (Z.leb_spec b 90); simpl; lia.
Qed.

Lemma range_from_ascii (p : list Z) :
  Forall (fun b => 0 <= b < 128) p ->
  forall (fuel : nat) (i : Z),
    (length p <= fuel)%nat ->
    uuid.range_from fuel i p = uuid.enumerate_from i p.
Proof.
  induction 1 as [|b rest Hb _ IH]; intros fuel i Hfuel.
  - destruct fuel; reflexivity.
  - destruct fuel as [|fuel]; simpl in Hfuel; [lia|].
    cbn [uuid.range_from uuid.enumerate_from uuid.DecodeRune].
    destruct (Z.ltb_spec b 128); [|lia].
    cbn [drop]. rewrite IH by lia. reflexivity.
Qed.

Lemma ToLower_ascii (L : Z -> Z) (p : list Z) :
  Forall (fun b => 0 <= b < 128) p ->
  uuid.ToLower L p = map uuid.lower_byte p.
Proof.
  intros Hp. unfold uuid.ToLower.
  assert (Hall : forallb (fun c => c <? 128) p = true).
  { apply forallb_forall. intros b Hb.
    rewrite Forall_forall in Hp. apply list_elem_of_In in Hb.
    specialize (Hp b Hb). apply Z.ltb_lt. lia. }
  rewrite Hall.
  destruct (existsb (uuid.between 65 90) p) eqn:Hex; [reflexivity|].
  clear Hall Hp. induction p as [|b p IH]; simpl in *; [reflexivity|].
  apply orb_false_elim in Hex as [Hb Hex].
  unfold uuid.lower_byte at 1. rewrite Hb. now rewrite <- IH.
Qed.

Lemma lower_ascii_bounded (p : list Z) :
  Forall (fun b => 0 <= b < 128) p ->
  Forall (fun b => 0 <= b < 128) (map uuid.lower_byte p).
Proof.
  induction 1 as [|b p Hb _ IH]; simpl; constructor; [|exact IH].
  destruct (lower_byte_cases b) as [[? ->]|[? ->]]; lia.
Qed.

(** On ASCII bytes the test of the loop, after lower-casing, is the test
    of the layout. *)
Lemma rune_ok_lower (D : Z -> bool) (i b : Z) :
  0 <= b < 128 ->
  uuid.rune_ok D (i, uuid.lower_byte b)
  = (if (i =? 8) || (i =? 13) || (i =? 18) || (i =? 23) then b =? 45
     else uuid.hex_digit b).
Proof.
  intros Hb. unfold uuid.rune_ok, uuid.isHex, uuid.IsDigit, uuid.hex_digit, uuid.between.
  destruct (lower_byte_cases b) as [[Hu ->]|[Hu ->]];
    destruct ((i =? 8) || (i =? 13) || (i =? 18) || (i =? 23));
    case_comparisons; simpl; try reflexivity; lia.
Qed.

Lemma rune_ok_layout (D : Z -> bool) (p : list Z) :
  Forall (fun b => 0 <= b < 128) p ->
  forall i : Z,
    forallb (uuid.rune_ok D) (uuid.enumerate_from i (map uuid.lower_byte p))
    = uuid.layout_from i p.
Proof.
  induction 1 as [|b p Hb _ IH]; intros i; [reflexivity|].
  cbn [map uuid.enumerate_from forallb uuid.layout_from].
  now rewrite rune_ok_lower, IH.
Qed.

(** [Parse] on a string of ASCII bytes, in closed form. *)
Lemma Parse_on_ascii (D : Z -> bool) (L : Z -> Z) (s : string) :
  Forall (fun b => 0 <= b < 128) (uuid.bytes s) ->
  uuid.Parse D L s
  = if uuid.canonical_layout s then Ok (uuid.lower_ascii s) else Err ErrInvalidUUID.
Proof.
  intros Hs. unfold uuid.Parse, uuid.canonical_layout, uuid.lower_ascii.
  destruct (uuid.len s =? 36); simpl; [|reflexivity].
  rewrite (ToLower_ascii L _ Hs).
  unfold uuid.range.
  rewrite range_from_ascii by (auto using lower_ascii_bounded).
  now rewrite rune_ok_layout.
Qed.

Lemma layout_ascii (p : list Z) :
  forall i : Z, uuid.layout_from i p = true -> Forall (fun b => 0 <= b < 128) p.
Proof.
  induction p as [|b p IH]; intros i H; [constructor|].
  simpl in H. apply andb_prop in H as [Hb Hrest].
  constructor; [|eauto].
  unfold uuid.hex_digit, uuid.between in Hb.
  destruct ((i =? 8) || (i =? 13) || (i =? 18) || (i =? 23)).
  - apply Z.eqb_eq in Hb. lia.
  - repeat match type of Hb with
           | context [?x <=? ?y] => destruct (Z.leb_spec x y)
           end; simpl in Hb; try discriminate; lia.
Qed.

Lemma layout_lower (p : list Z) :
  forall i : Z,
    uuid.layout_from i (map uuid.lower_byte p) = uuid.layout_from i p.
Proof.
  induction p as [|b p IH]; intros i; simpl; [reflexivity|].
  rewrite IH. f_equal.
  unfold uuid.hex_digit, uuid.between.
  destruct (lower_byte_cases b) as [[Hu ->]|[Hu ->]]; [|reflexivity].
  destruct ((i =? 8) || (i =? 13) || (i =? 18) || (i =? 23));
    case_comparisons; simpl; try reflexivity; lia.
Qed.

Lemma lower_byte_idem (b : Z) : uuid.lower_byte (uuid.lower_byte b) = uuid.lower_byte b.
Proof.
  destruct (lower_byte_cases b) as [[Hu Hb]|[Hu Hb]]; rewrite Hb.
  - destruct (lower_byte_cases (b + 32)) as [[? ?]|[? ->]]; [lia|reflexivity].
  - exact Hb.
Qed.

Lemma bytes_lower_ascii (s : string) :
  uuid.bytes (uuid.lower_ascii s) = map uuid.lower_byte (uuid.bytes s).
Proof.
  unfold uuid.lower_ascii. apply bytes_of_bytes.
  pose proof (bytes_bounded s) as Hb.
  induction Hb as [|b p Hb _ IH]; simpl; constructor; [|exact IH].
  destruct (lower_byte_cases b) as [[? ->]|[? ->]]; lia.
Qed.

Lemma canonical_lower (s : string) :
  uuid.canonical_layout (uuid.lower_ascii s) = uuid.canonical_layout s
  /\ uuid.lower_ascii (uuid.lower_ascii s) = uuid.lower_ascii s.
Proof.
  split.
  - unfold uuid.canonical_layout, uuid.len.
    rewrite bytes_lower_ascii, layout_lower. now rewrite length_map.
  - unfold uuid.lower_ascii at 1 3. rewrite bytes_lower_ascii. f_equal.
    rewrite map_map. apply map_ext. intros b. apply lower_byte_idem.
Qed.

(** [Parse] accepts every string in the 8-4-4-4-12 hexadecimal layout,
    in either case, and returns it in lower case, whatever the tables of
    package [unicode] hold; parsing the text of the result returns the
    result. *)
Theorem Parse_canonical :
  forall (D : Z -> bool) (L : Z -> Z) (s : string),
    uuid.canonical_layout s = true ->
    uuid.Parse D L s = Ok (uuid.lower_ascii s)
    /\ uuid.Parse D L (uuid.String_ (uuid.lower_ascii s)) = Ok (uuid.lower_ascii s).
Proof.
  intros D L s Hc.
  assert (Hascii : forall t, uuid.canonical_layout t = true ->
                             Forall (fun b => 0 <= b < 128) (uuid.bytes t)).
  { intros t Ht. unfold uuid.canonical_layout in Ht.
    apply andb_prop in Ht as [_ Ht]. eauto using layout_ascii. }
  destruct (canonical_lower s) as [Hcl Hll].
  split.
  - rewrite Parse_on_ascii by auto. now rewrite Hc.
  - unfold uuid.String_. rewrite Parse_on_ascii by (apply Hascii; congruence).
    rewrite Hcl, Hc. now rewrite Hll.
Qed.

Lemma Parse_canonical_witness :
  uuid.Parse (fun _ => false) (fun r => r) "ABCDEF01-2345-6789-abcd-ef0123456789"
  = Ok "abcdef01-2345-6789-abcd-ef0123456789".
Proof.
  exact (proj1 (Parse_canonical (fun _ => false) (fun r => r)
                  "ABCDEF01-2345-6789-abcd-ef0123456789" eq_refl)).
Defined.

(** Among the strings of ASCII bytes, [Parse] accepts exactly those in
    the 8-4-4-4-12 hexadecimal layout, returns them in lower case, and
    answers every other with [ErrInvalidUUID]. *)
Theorem Parse_ascii_only :
  forall (D : Z -> bool) (L : Z -> Z) (s : string),
    Forall (fun b => 0 <= b < 128) (uuid.bytes s) ->
    (forall u : UUID,
       uuid.Parse D L s = Ok u
       <-> uuid.canonical_layout s = true /\ u = uuid.lower_ascii s)
    /\ (uuid.Parse D L s = Err ErrInvalidUUID
        <-> uuid.canonical_layout s = false).
Proof.
  intros D L s Hs. rewrite (Parse_on_ascii D L s Hs).
  destruct (uuid.canonical_layout s); split.
  - intros u. split; [intros [= <-]; auto|intros [_ ->]; reflexivity].
  - split; discriminate.
  - intros u. split; [discriminate|intros [[=] _]].
  - split; reflexivity.
Qed.

Lemma Parse_ascii_only_witness :
  uuid.Parse (fun _ => false) (fun r => r) "ABCDEF01-2345-6789-abcd-ef012345678g"
  = Err ErrInvalidUUID.
Proof.
  refine (proj2 (proj2 (Parse_ascii_only (fun _ => false) (fun r => r)
                          "ABCDEF01-2345-6789-abcd-ef012345678g" _)) eq_refl).
  vm_compute. repeat constructor; discriminate.
Defined.

(** ** The store behind the adapter: creation, invariants, listing *)




(** The errors of the checks are the server's, never [sql.ErrNoRows]. *)
Lemma check_row_error_not_ErrNoRows (r : Postgres.Row) (e : error) :
  Postgres.check_row r = Some e -> errors_Is e ErrNoRows = false.
Proof.
  unfold Postgres.check_row. intros Hc.
  repeat match type of Hc with
         | (if ?b then _ else _) = _ => destruct b
         end; inversion Hc; reflexivity.
Qed.

Lemma Create_eval (input : CreateInput) (st : Postgres.Store) :
  Postgres.CreateSubscription input st
  = match Postgres.check_row (Stored.row_of input) with
    | Some e =>
        (Err (Wrapf "storage.postgresql.CreateSubscription" e),
         {| Postgres.rows := Postgres.rows st;
            Postgres.uuid_generate_v4 := Postgres.uuid_generate_v4 st;
            Postgres.generated := S (Postgres.generated st) |})
    | None =>
        match Postgres.rows st !! Stored.next_id st with
        | Some _ =>
            (Err (Wrapf "storage.postgresql.CreateSubscription"
                    (PqError "duplicate key value violates unique constraint")),
             {| Postgres.rows := Postgres.rows st;
                Postgres.uuid_generate_v4 := Postgres.uuid_generate_v4 st;
                Postgres.generated := S (Postgres.generated st) |})
        | None =>
            (Ok (Postgres.scan (Stored.next_id st) (Stored.row_of input)),
             {| Postgres.rows := <[Stored.next_id st := Stored.row_of input]> (Postgres.rows st);
                Postgres.uuid_generate_v4 := Postgres.uuid_generate_v4 st;
                Postgres.generated := S (Postgres.generated st) |})
        end
    end.
Proof.
  unfold Postgres.CreateSubscription, Postgres.exec_insert.
  fold (Stored.next_id st). fold (Stored.row_of input).
  destruct (Postgres.check_row (Stored.row_of input)); [reflexivity|].
  destruct (Postgres.rows st !! Stored.next_id st); reflexivity.
Qed.

Lemma GetSubscription_eval (id : UUID) (st : Postgres.Store) :
  Postgres.GetSubscription id st
  = (match Postgres.rows st !! id with
     | Some r => Ok (Postgres.scan id r)
     | None => Err ErrNotFound
     end, st).
Proof.
  unfold Postgres.GetSubscription, Postgres.exec_select_by_id.
  destruct (Postgres.rows st !! id); reflexivity.
Qed.

Lemma UpdateSubscription_eval (id : UUID) (input : UpdateInput) (st : Postgres.Store) :
  Postgres.UpdateSubscription id input st
  = match Postgres.rows st !! id with
    | None => (Err ErrNotFound, st)
    | Some old =>
        match Postgres.check_row (Postgres.assign old input) with
        | Some e => (Err (Wrapf "storage.postgresql.UpdateSubscription" e), st)
        | None =>
            (Ok (Postgres.scan id (Postgres.assign old input)),
             Postgres.with_rows st
               (<[id := Postgres.assign old input]> (Postgres.rows st)))
        end
    end.
Proof.
  unfold Postgres.UpdateSubscription, Postgres.exec_update.
  destruct (Postgres.rows st !! id) as [old|]; [|reflexivity].
  destruct (Postgres.check_row (Postgres.assign old input)) as [e|] eqn:Hc;
    [|reflexivity].
  simpl. rewrite (check_row_error_not_ErrNoRows _ _ Hc). reflexivity.
Qed.






(** ** The listing: order, pagination, distinct ids *)











(** ** [Sum] on the storage adapter *)








(** ** Update, delete and create, composed with reads *)

(** What a successful [UpdateSubscription] returned is what
    [GetSubscription] of that id returns afterwards, and it carries the
    id asked for; the same update once more returns the same record and
    leaves the store as the first one left it. *)
Theorem Update_then_Get :
  forall (st st' : Postgres.Store) (id : UUID) (input : UpdateInput)
         (sub : Subscription),
    Postgres.UpdateSubscription id input st = (Ok sub, st') ->
    ID sub = id
    /\ Postgres.GetSubscription id st' = (Ok sub, st')
    /\ Postgres.UpdateSubscription id input st' = (Ok sub, st').
Proof.
  intros st st' id input sub. rewrite UpdateSubscription_eval.
  destruct (Postgres.rows st !! id) as [old|] eqn:Hold; [|discriminate].
  destruct (Postgres.check_row (Postgres.assign old input)) eqn:Hc; [discriminate|].
  intros [= <- <-]. split; [reflexivity|]. split.
  - rewrite GetSubscription_eval; simpl. now rewrite lookup_insert_eq.
  - rewrite UpdateSubscription_eval; simpl. rewrite lookup_insert_eq.
    change (Postgres.assign (Postgres.assign old input) input)
      with (Postgres.assign old input).
    rewrite Hc. unfold Postgres.with_rows; simpl. now rewrite insert_insert_eq.
Qed.

Lemma Update_then_Get_witness :
  Postgres.GetSubscription Sample.id1
    (Postgres.with_rows
       (Sample.store {[ Sample.id1 := Sample.row 100 Sample.jan2023 None ]})
       {[ Sample.id1 := Postgres.assign (Sample.row 100 Sample.jan2023 None)
                          (Sample.update 120 Sample.feb2023 None) ]})
  = (Ok (Postgres.scan Sample.id1
           (Postgres.assign (Sample.row 100 Sample.jan2023 None)
              (Sample.update 120 Sample.feb2023 None))),
     Postgres.with_rows
       (Sample.store {[ Sample.id1 := Sample.row 100 Sample.jan2023 None ]})
       {[ Sample.id1 := Postgres.assign (Sample.row 100 Sample.jan2023 None)
                          (Sample.update 120 Sample.feb2023 None) ]}).
Proof.
  refine (proj1 (proj2 (Update_then_Get
            (Sample.store {[ Sample.id1 := Sample.row 100 Sample.jan2023 None ]})
            _ Sample.id1 (Sample.update 120 Sample.feb2023 None) _ _))).
  vm_compute. reflexivity.
Defined.





(** ** [Value] and [Scan] *)

Lemma Parse_error (D : Z -> bool) (L : Z -> Z) (s : string) (err : error) :
  uuid.Parse D L s = Err err -> err = ErrInvalidUUID.
Proof.
  unfold uuid.Parse.
  destruct (negb _); [now intros [= <-]|].
  destruct (forallb _ _); [discriminate|now intros [= <-]].
Qed.

Lemma canonical_layout_ascii (s : string) :
  uuid.canonical_layout s = true -> Forall (fun b => 0 <= b < 128) (uuid.bytes s).
Proof.
  unfold uuid.canonical_layout. intros [_ H]%andb_prop. eauto using layout_ascii.
Qed.

(** A canonical uuid written with [Value] and read back with [Scan], as
    the string itself or as the bytes the driver returns, is the same
    uuid, whatever the target held; the empty uuid is written as nil, and
    nil is read as the empty uuid. *)
Theorem Scan_Value_round_trip :
  forall (D : Z -> bool) (L : Z -> Z) (u target : UUID),
    u = EmptyString \/ uuid_sql.canonical u ->
    exists v : uuid_sql.driver_Value,
      uuid_sql.Value u = Ok v
      /\ (u = EmptyString <-> v = uuid_sql.ValueNil)
      /\ uuid_sql.Scan D L target (uuid_sql.stored v) = (u, None)
      /\ (v = uuid_sql.ValueString u ->
          uuid_sql.Scan D L target (uuid_sql.AnyString u) = (u, None)).
Proof.
  intros D L u target [-> | [Hlayout Hlower]].
  - exists uuid_sql.ValueNil. repeat split; try reflexivity. discriminate.
  - assert (Hne : u <> EmptyString) by (intros ->; discriminate).
    exists (uuid_sql.ValueString u). unfold uuid_sql.Value.
    destruct (decide (u = EmptyString)); [contradiction|].
    pose proof (Parse_on_ascii D L u (canonical_layout_ascii u Hlayout)) as Hp.
    rewrite Hlayout, Hlower in Hp.
    split; [reflexivity|]. split; [split; [contradiction|discriminate]|].
    simpl. rewrite of_bytes_bytes, Hp. auto.
Qed.

Lemma Scan_Value_round_trip_witness :
  uuid_sql.Scan (fun _ => false) (fun r => r) "11111111-1111-1111-1111-111111111111"
    (uuid_sql.AnyBytes (uuid.bytes "abcdef01-2345-6789-abcd-ef0123456789"))
  = ("abcdef01-2345-6789-abcd-ef0123456789"%string, None).
Proof.
  destruct (Scan_Value_round_trip (fun _ => false) (fun r => r)
              "abcdef01-2345-6789-abcd-ef0123456789"
              "11111111-1111-1111-1111-111111111111"
              (or_intror (conj eq_refl eq_refl)))
    as (v & Hv & _ & Hs & _).
  injection Hv as <-. exact Hs.
Defined.

(** [Scan] fails only with [ErrInvalidUUID], bare for a text that [Parse]
    rejects and wrapped for a source of another type, and then leaves the
    target as it was; a [Scan] that succeeds on a text of ASCII bytes
    leaves a canonical uuid. *)
Theorem Scan_failure :
  forall (D : Z -> bool) (L : Z -> Z) (target : UUID) (src : uuid_sql.any),
    (forall err : error,
       (uuid_sql.Scan D L target src).2 = Some err ->
       errors_Is err ErrInvalidUUID = true
       /\ (uuid_sql.Scan D L target src).1 = target)
    /\ (forall v : string,
          src = uuid_sql.AnyString v ->
          Forall (fun b => 0 <= b < 128) (uuid.bytes v) ->
          (uuid_sql.Scan D L target src).2 = None ->
          uuid_sql.canonical (uuid_sql.Scan D L target src).1).
Proof.
  intros D L target src. split.
  - intros err. destruct src as [|v|v|t]; simpl.
    + discriminate.
    + destruct (uuid.Parse D L v) eqn:Hp; [discriminate|].
      intros [= <-]. now rewrite (Parse_error _ _ _ _ Hp).
    + destruct (uuid.Parse D L (uuid.of_bytes v)) eqn:Hp; [discriminate|].
      intros [= <-]. now rewrite (Parse_error _ _ _ _ Hp).
    + intros [= <-]. split; reflexivity.
  - intros v -> Hascii. simpl. rewrite (Parse_on_ascii D L v Hascii).
    destruct (uuid.canonical_layout v) eqn:Hc; [|discriminate].
    intros _. simpl. destruct (canonical_lower v) as [Hcl Hll].
    split; [congruence|exact Hll].
Qed.

Lemma Scan_failure_witness :
  errors_Is (Wrapf "unexpected type int64" ErrInvalidUUID) ErrInvalidUUID = true
  /\ (uuid_sql.Scan (fun _ => false) (fun r => r) "11111111-1111-1111-1111-111111111111"
        (uuid_sql.AnyOther "int64")).1
     = "11111111-1111-1111-1111-111111111111"%string.
Proof.
  exact (proj1 (Scan_failure (fun _ => false) (fun r => r)
                  "11111111-1111-1111-1111-111111111111" (uuid_sql.AnyOther "int64"))
           (Wrapf "unexpected type int64" ErrInvalidUUID) eq_refl).
Defined.

(** ** The month layout *)

Lemma Time_eq (t u : Time) :
  Year t = Year u -> Month t = Month u -> Day t = Day u -> t = u.
Proof.
  destruct t as [y m d ok], u as [y' m' d' ok']; simpl.
  intros -> -> ->. f_equal. apply (proof_irrel ok ok').
Qed.

Lemma Date_of_Some (y m d : Z) (t : Time) :
  month_layout.Date_of y m d = Some t -> Year t = y /\ Month t = m /\ Day t = d.
Proof.
  unfold month_layout.Date_of.
  destruct (Bool.bool_dec (valid_date y m d) true); [|discriminate].
  now intros [= <-].
Qed.

Lemma Date_of_valid (y m d : Z) :
  valid_date y m d = true -> exists t, month_layout.Date_of y m d = Some t.
Proof.
  unfold month_layout.Date_of. intros Hv.
  destruct (Bool.bool_dec (valid_date y m d) true); [eauto|contradiction].
Qed.

Lemma Date_of_self (t : Time) :
  month_layout.Date_of (Year t) (Month t) (Day t) = Some t.
Proof.
  destruct (Date_of_valid (Year t) (Month t) (Day t) (Date_valid t)) as [u Hu].
  rewrite Hu. f_equal.
  apply Date_of_Some in Hu as (? & ? & ?). now apply Time_eq.
Qed.

Lemma first_day_valid (y m : Z) :
  0 <= y <= 9999 -> 1 <= m <= 12 -> valid_date y m 1 = true.
Proof.
  intros Hy Hm. unfold valid_date, year_bound.
  assert (1 <= daysIn m y).
  { unfold daysIn. repeat match goal with |- context [if ?b then _ else _] => destruct b end; lia. }
  repeat (apply andb_true_intro; split); try apply Z.ltb_lt; try apply Z.leb_le; lia.
Qed.

Lemma utoa_small (fuel : nat) (u : Z) :
  u < 10 -> month_layout.utoa (S fuel) u = [48 + u].
Proof. intros Hu. simpl. destruct (Z.ltb_spec u 10); [reflexivity|lia]. Qed.

Lemma utoa_step (fuel : nat) (u : Z) :
  10 <= u ->
  month_layout.utoa (S fuel) u = month_layout.utoa fuel (u / 10) ++ [48 + u mod 10].
Proof. intros Hu. simpl. destruct (Z.ltb_spec u 10); [lia|reflexivity]. Qed.

(** The two digits of a month and the four digits of a year. *)
Lemma appendInt_month (m : Z) :
  0 <= m < 100 -> month_layout.appendInt m 2 = [48 + m / 10; 48 + m mod 10].
Proof.
  intros Hm. unfold month_layout.appendInt.
  destruct (Z.ltb_spec m 0); [lia|]. rewrite Z.abs_eq by lia.
  destruct (Z.lt_ge_cases m 10).
  - rewrite utoa_small by lia. simpl.
    repeat (apply (f_equal2 cons)); try reflexivity; Z.div_mod_to_equations; lia.
  - rewrite utoa_step by lia.
    rewrite utoa_small by (Z.div_mod_to_equations; lia). reflexivity.
Qed.

Lemma appendInt_year (y : Z) :
  0 <= y <= 9999 ->
  month_layout.appendInt y 4
  = [48 + y / 1000; 48 + y / 100 mod 10; 48 + y / 10 mod 10; 48 + y mod 10].
Proof.
  intros Hy. unfold month_layout.appendInt.
  destruct (Z.ltb_spec y 0); [lia|]. rewrite Z.abs_eq by lia.
  destruct (Z.lt_ge_cases y 10); [|destruct (Z.lt_ge_cases y 100);
    [|destruct (Z.lt_ge_cases y 1000)]].
  - rewrite utoa_small by lia. simpl.
    repeat (apply (f_equal2 cons)); try reflexivity; Z.div_mod_to_equations; lia.
  - rewrite utoa_step by lia.
    rewrite utoa_small by (Z.div_mod_to_equations; lia). simpl.
    repeat (apply (f_equal2 cons)); try reflexivity; Z.div_mod_to_equations; lia.
  - rewrite utoa_step by lia.
    rewrite utoa_step by (Z.div_mod_to_equations; lia).
    rewrite utoa_small by (Z.div_mod_to_equations; lia). simpl.
    repeat (apply (f_equal2 cons)); try reflexivity; Z.div_mod_to_equations; lia.
  - rewrite utoa_step by lia.
    rewrite utoa_step by (Z.div_mod_to_equations; lia).
    rewrite utoa_step by (Z.div_mod_to_equations; lia).
    rewrite utoa_small by (Z.div_mod_to_equations; lia). simpl.
    repeat (apply (f_equal2 cons)); try reflexivity; Z.div_mod_to_equations; lia.
Qed.

Lemma between_digit (c : Z) : uuid.between 48 57 c = true <-> 48 <= c <= 57.
Proof. unfold uuid.between. rewrite andb_true_iff, !Z.leb_le. tauto. Qed.

Lemma getnum_fixed_Some (s : list Z) (n : Z) (rest : list Z) :
  month_layout.getnum_fixed s = Some (n, rest) <->
  exists a b, s = a :: b :: rest /\ 48 <= a <= 57 /\ 48 <= b <= 57
              /\ n = (a - 48) * 10 + (b - 48).
Proof.
  unfold month_layout.getnum_fixed, month_layout.isDigit.
  destruct s as [|a [|b s]]; simpl.
  - split; [discriminate|]. now intros (? & ? & ? & _).
  - split; [destruct (uuid.between 48 57 a); discriminate|].
    now intros (? & ? & ? & _).
  - destruct (uuid.between 48 57 a) eqn:Ha; simpl.
    + destruct (uuid.between 48 57 b) eqn:Hb; simpl.
      * apply between_digit in Ha, Hb. split.
        -- intros [= <- <-]. now exists a, b.
        -- intros (a' & b' & [= <- <- <-] & _ & _ & ->). reflexivity.
      * split; [discriminate|].
        intros (a' & b' & [= <- <- <-] & _ & Hb' & _).
        apply between_digit in Hb'. congruence.
    + split; [discriminate|].
      intros (a' & b' & [= <- <- <-] & Ha' & _).
      apply between_digit in Ha'. congruence.
Qed.

Lemma skip_hyphen_Some (s rest : list Z) :
  month_layout.skip_hyphen s = Some rest <-> s = 45 :: rest.
Proof.
  unfold month_layout.skip_hyphen. destruct s as [|c s].
  - split; discriminate.
  - destruct (Z.eqb_spec c 45) as [->|Hc].
    + split; [now intros [= ->]|now intros [= ->]].
    + split; [discriminate|intros [= ? ?]; contradiction].
Qed.

Lemma leadingInt_digit (c : Z) (rest : list Z) (x : Z) :
  48 <= c <= 57 -> 0 <= x < 10 ^ 17 ->
  month_layout.leadingInt (c :: rest) x
  = month_layout.leadingInt rest (x * 10 + (c - 48)).
Proof.
  intros Hc Hx. simpl month_layout.leadingInt.
  destruct (Z.ltb_spec c 48); [lia|]. destruct (Z.ltb_spec 57 c); [lia|].
  simpl orb. cbv iota.
  change (2 ^ 63 / 10) with 922337203685477580.
  change (2 ^ 63) with 9223372036854775808.
  change (10 ^ 17) with 100000000000000000 in Hx.
  destruct (Z.ltb_spec 922337203685477580 x); [lia|].
  destruct (Z.ltb_spec 9223372036854775808 (x * 10 + (c - 48))); [lia|].
  reflexivity.
Qed.

Lemma leadingInt_other (c : Z) (rest : list Z) (x : Z) :
  ~ 48 <= c <= 57 ->
  month_layout.leadingInt (c :: rest) x = Some (x, c :: rest).
Proof.
  intros Hc. simpl month_layout.leadingInt.
  destruct (Z.ltb_spec c 48); [reflexivity|].
  destruct (Z.ltb_spec 57 c); [reflexivity|lia].
Qed.

Lemma digit_dec (c : Z) : {48 <= c <= 57} + {~ 48 <= c <= 57}.
Proof.
  destruct (Z_le_dec 48 c); [destruct (Z_le_dec c 57)|]; [left|right|right]; lia.
Qed.

(** Four bytes read as a year: all four are digits, and the year is
    their decimal value. *)
Lemma long_year_Some (s : list Z) (y : Z) (rest : list Z) :
  month_layout.long_year s = Some (y, rest) <->
  exists c d e f, s = c :: d :: e :: f :: rest
    /\ 48 <= c <= 57 /\ 48 <= d <= 57 /\ 48 <= e <= 57 /\ 48 <= f <= 57
    /\ y = (((c - 48) * 10 + (d - 48)) * 10 + (e - 48)) * 10 + (f - 48).
Proof.
  unfold month_layout.long_year, month_layout.isDigit.
  destruct s as [|c [|d [|e [|f s]]]];
    try (split; [simpl; discriminate|now intros (? & ? & ? & ? & ? & _)]).
  change (length (c :: d :: e :: f :: s) <? 4)%nat with false.
  cbn [lookup list_lookup orb take drop].
  destruct (uuid.between 48 57 c) eqn:Hc; cbn [negb].
  2:{ split; [discriminate|].
      intros (c' & ? & ? & ? & [= <- <- <- <- <-] & Hc' & _).
      apply between_digit in Hc'. congruence. }
  apply between_digit in Hc.
  unfold month_layout.atoi.
  destruct (Z.eqb_spec c 45); [lia|]. destruct (Z.eqb_spec c 43); [lia|].
  cbn [orb].
  rewrite (leadingInt_digit c) by lia.
  destruct (digit_dec d) as [Hd|Hd].
  2:{ rewrite leadingInt_other by exact Hd. split; [discriminate|].
      intros (? & ? & ? & ? & [= <- <- <- <- <-] & ? & ? & _). contradiction. }
  rewrite (leadingInt_digit d) by lia.
  destruct (digit_dec e) as [He|He].
  2:{ rewrite leadingInt_other by exact He. split; [discriminate|].
      intros (? & ? & ? & ? & [= <- <- <- <- <-] & ? & ? & ? & _). contradiction. }
  rewrite (leadingInt_digit e) by lia.
  destruct (digit_dec f) as [Hf|Hf].
  2:{ rewrite leadingInt_other by exact Hf. split; [discriminate|].
      intros (? & ? & ? & ? & [= <- <- <- <- <-] & ? & ? & ? & ? & _). contradiction. }
  rewrite (leadingInt_digit f) by lia.
  rewrite take_0, drop_0. cbn [month_layout.leadingInt].
  rewrite wrap_in_range by (unfold GoInt.in_range, GoInt.min_int, GoInt.max_int; lia).
  split.
  - intros [= <- <-]. exists c, d, e, f. repeat split; try lia.
  - intros (? & ? & ? & ? & [= <- <- <- <- <-] & _ & _ & _ & _ & ->). reflexivity.
Qed.

(** What [time.Parse] with the layout ["01-2006"] accepts: two digits of
    a month from 1 to 12, a hyphen and four digits of a year; the value
    is the first day of that month. *)
Lemma month_Parse_Some (s : string) (t : Time) :
  month_layout.Parse s = Some t <->
  exists a b c d e f,
    uuid.bytes s = [a; b; 45; c; d; e; f]
    /\ 48 <= a <= 57 /\ 48 <= b <= 57
    /\ 48 <= c <= 57 /\ 48 <= d <= 57 /\ 48 <= e <= 57 /\ 48 <= f <= 57
    /\ 1 <= (a - 48) * 10 + (b - 48) <= 12
    /\ Year t = (((c - 48) * 10 + (d - 48)) * 10 + (e - 48)) * 10 + (f - 48)
    /\ Month t = (a - 48) * 10 + (b - 48)
    /\ Day t = 1.
Proof.
  unfold month_layout.Parse. split.
  - destruct (month_layout.getnum_fixed (uuid.bytes s)) as [[month v1]|] eqn:Hg;
      [|discriminate].
    apply getnum_fixed_Some in Hg as (a & b & Hs & Ha & Hb & ->).
    destruct (Z.leb_spec ((a - 48) * 10 + (b - 48)) 0); [discriminate|].
    destruct (Z.ltb_spec 12 ((a - 48) * 10 + (b - 48))); [discriminate|].
    cbn [orb].
    destruct (month_layout.skip_hyphen v1) as [v2|] eqn:Hk; [|discriminate].
    apply skip_hyphen_Some in Hk as ->.
    destruct (month_layout.long_year v2) as [[year v3]|] eqn:Hy; [|discriminate].
    apply long_year_Some in Hy as (c & d & e & f & -> & Hc & Hd & He & Hf & ->).
    destruct v3 as [|? ?]; [|discriminate]. cbn [length Nat.eqb negb].
    intros Hd'. apply Date_of_Some in Hd' as (Y & M & D).
    exists a, b, c, d, e, f. repeat split; try assumption; lia.
  - intros (a & b & c & d & e & f & Hs & Ha & Hb & Hc & Hd & He & Hf & Hm & HY & HM & HD).
    rewrite Hs.
    rewrite (proj2 (getnum_fixed_Some _ _ _)) by (exists a, b; repeat split; lia).
    destruct (Z.leb_spec ((a - 48) * 10 + (b - 48)) 0); [lia|].
    destruct (Z.ltb_spec 12 ((a - 48) * 10 + (b - 48))); [lia|].
    cbn [orb].
    rewrite (proj2 (skip_hyphen_Some _ _) eq_refl).
    rewrite (proj2 (long_year_Some _ _ _))
      by (exists c, d, e, f; repeat split; lia).
    cbn [length Nat.eqb negb].
    rewrite <- HY, <- HM, <- HD. apply Date_of_self.
Qed.

Lemma month_Format_bytes (t : Time) :
  month_layout.normal t ->
  uuid.bytes (month_layout.Format t)
  = [48 + Month t / 10; 48 + Month t mod 10; 45;
     48 + Year t / 1000; 48 + Year t / 100 mod 10;
     48 + Year t / 10 mod 10; 48 + Year t mod 10].
Proof.
  intros [Hd Hy]. pose proof (date_bounds t) as Hb.
  unfold month_layout.Format.
  rewrite appendInt_month, appendInt_year by lia.
  apply bytes_of_bytes.
  repeat constructor; Z.div_mod_to_equations; lia.
Qed.

(** A month written with the layout is read back as the same value. *)
Lemma month_Parse_Format (t : Time) :
  month_layout.normal t -> month_layout.Parse (month_layout.Format t) = Some t.
Proof.
  intros Hn. pose proof (month_Format_bytes t Hn) as Hb.
  destruct Hn as [Hd Hy]. pose proof (date_bounds t) as Ht.
  apply month_Parse_Some.
  exists (48 + Month t / 10), (48 + Month t mod 10),
    (48 + Year t / 1000), (48 + Year t / 100 mod 10),
    (48 + Year t / 10 mod 10), (48 + Year t mod 10).
  split; [exact Hb|].
  repeat split; try exact Hd; Z.div_mod_to_equations; lia.
Qed.

(** What the layout reads is the first day of a month of the years 0 to
    9999, and writing it gives the text that was read. *)
Lemma month_Format_Parse (s : string) (t : Time) :
  month_layout.Parse s = Some t ->
  month_layout.normal t /\ month_layout.Format t = s.
Proof.
  intros Hp.
  apply month_Parse_Some in Hp
    as (a & b & c & d & e & f & Hs & Ha & Hb & Hc & Hd & He & Hf & Hm & HY & HM & HD).
  assert (month_layout.normal t) as Hn by (split; [exact HD|lia]).
  split; [exact Hn|].
  rewrite <- (of_bytes_bytes s), <- (of_bytes_bytes (month_layout.Format t)).
  f_equal. rewrite (month_Format_bytes t Hn), Hs, HY, HM.
  repeat (apply (f_equal2 cons)); try reflexivity; Z.div_mod_to_equations; lia.
Qed.

Lemma month_Format_nonempty (t : Time) :
  month_layout.normal t -> month_layout.Format t <> EmptyString.
Proof.
  intros Hn He. pose proof (month_Format_bytes t Hn) as Hb.
  rewrite He in Hb. discriminate.
Qed.

Lemma month_Parse_nonempty (s : string) (t : Time) :
  month_layout.Parse s = Some t -> s <> EmptyString.
Proof. intros Hp ->. discriminate. Qed.

(** ** The handlers: requests and responses *)

Lemma substring_all (s : string) : String.substring 0 (String.length s) s = s.
Proof. induction s as [|a s IH]; simpl; [reflexivity|now rewrite IH]. Qed.

Lemma TrimPrefix_app (p s : string) :
  strings.TrimPrefix (String.append p s) p = s.
Proof.
  unfold strings.TrimPrefix.
  assert (String.prefix p (String.append p s) = true) as ->.
  { induction p as [|a p IH]; simpl; [now destruct s|].
    destruct (ascii_dec a a); [exact IH|contradiction]. }
  induction p as [|a p IH]; simpl.
  - rewrite Nat.sub_0_r. apply substring_all.
  - exact IH.
Qed.

Lemma canonical_Parse (D : Z -> bool) (L : Z -> Z) (u : UUID) :
  uuid_sql.canonical u -> uuid.Parse D L u = Ok u.
Proof.
  intros [Hl Hu]. rewrite Parse_on_ascii by now apply canonical_layout_ascii.
  now rewrite Hl, Hu.
Qed.

Lemma canonical_nonempty (u : UUID) : uuid_sql.canonical u -> u <> EmptyString.
Proof. intros [Hl _] ->. discriminate. Qed.

(** What [toCreateInput] read when it returned an input. *)
Lemma toCreateInput_Parsed (D : Z -> bool) (L : Z -> Z)
    (r : handlers.subscriptionRequest) (input : CreateInput) :
  handlers.toCreateInput D L r = handlers.Parsed input ->
  ci_ServiceName input = handlers.rq_ServiceName r
  /\ ci_Price input = handlers.rq_Price r
  /\ uuid.Parse D L (handlers.rq_UserID r) = Ok (ci_UserID input)
  /\ month_layout.Parse (handlers.rq_StartDate r) = Some (ci_StartMonth input)
  /\ match ci_EndMonth input with
     | Some e => exists s, handlers.rq_EndDate r = Some s
                           /\ month_layout.Parse s = Some e
     | None => handlers.rq_EndDate r = None
               \/ handlers.rq_EndDate r = Some EmptyString
     end.
Proof.
  unfold handlers.toCreateInput.
  destruct (uuid.Parse D L (handlers.rq_UserID r)) as [u|]; [|discriminate].
  destruct (month_layout.Parse (handlers.rq_StartDate r)) as [start|]; [|discriminate].
  destruct (handlers.rq_EndDate r) as [e|].
  - destruct (decide (e = EmptyString)) as [->|He].
    + intros [= <-]; simpl. repeat split; auto.
    + destruct (month_layout.Parse e) as [p|] eqn:Hp; [|discriminate].
      intros [= <-]; simpl. repeat split; eauto.
  - intros [= <-]; simpl. repeat split; auto.
Qed.

Lemma toUpdateInput_Parsed (D : Z -> bool) (L : Z -> Z)
    (r : handlers.subscriptionRequest) (input : UpdateInput) :
  handlers.toUpdateInput D L r = handlers.Parsed input ->
  exists c, handlers.toCreateInput D L r = handlers.Parsed c
            /\ input = {| ui_ServiceName := ci_ServiceName c;
                          ui_Price := ci_Price c;
                          ui_StartMonth := ci_StartMonth c;
                          ui_EndMonth := ci_EndMonth c |}.
Proof.
  unfold handlers.toUpdateInput.
  destruct (handlers.toCreateInput D L r) as [c|]; [|discriminate].
  intros [= <-]. eauto.
Qed.

(** A subscription sent as JSON and read back.  The response built
    from a subscription, sent as the body of a request, is read by
    [toCreateInput] as the fields of that subscription, when its user id
    is a canonical uuid text and its months are first days of months of
    the years 0 to 9999. *)
Theorem toCreateInput_of_response :
  forall (D : Z -> bool) (L : Z -> Z) (sub : Subscription),
    uuid_sql.canonical (UserID sub) ->
    month_layout.normal (StartMonth sub) ->
    (forall e, EndMonth sub = Some e -> month_layout.normal e) ->
    handlers.toCreateInput D L
      (handlers.request_of (handlers.subscriptionResponseFromDomain sub))
    = handlers.Parsed {| ci_ServiceName := ServiceName sub;
                         ci_Price := Price sub;
                         ci_UserID := UserID sub;
                         ci_StartMonth := StartMonth sub;
                         ci_EndMonth := EndMonth sub |}.
Proof.
  intros D L sub Hu Hs He.
  unfold handlers.toCreateInput, handlers.request_of,
    handlers.subscriptionResponseFromDomain; simpl.
  rewrite (canonical_Parse D L _ Hu), (month_Parse_Format _ Hs).
  destruct (EndMonth sub) as [e|]; [|reflexivity].
  specialize (He e eq_refl).
  destruct (decide (month_layout.Format e = EmptyString)) as [Hempty|_].
  - now apply month_Format_nonempty in Hempty.
  - now rewrite (month_Parse_Format _ He).
Qed.

Lemma toCreateInput_of_response_witness :
  handlers.toCreateInput (fun _ => false) (fun r => r)
    (handlers.request_of
       (handlers.subscriptionResponseFromDomain
          (Sample.sub Sample.id1 100 Sample.jan2023 (Some Sample.mar2023))))
  = handlers.Parsed {| ci_ServiceName := "music";
                       ci_Price := 100;
                       ci_UserID := Sample.user1;
                       ci_StartMonth := Sample.jan2023;
                       ci_EndMonth := Some Sample.mar2023 |}.
Proof.
  apply (toCreateInput_of_response (fun _ => false) (fun r => r)
           (Sample.sub Sample.id1 100 Sample.jan2023 (Some Sample.mar2023))).
  - split; reflexivity.
  - split; simpl; lia.
  - intros e [= <-]. split; simpl; lia.
Defined.

(** What [toCreateInput] accepts.  The service name and the price
    pass unchanged, whatever they are; the start is the first day of a
    month of the years 0 to 9999 and is written back as the text of the
    request; an end date that is absent or empty gives no end month, any
    other is read like the start; [toUpdateInput] returns the same
    fields without the user id. *)
Theorem toCreateInput_accepts :
  forall (D : Z -> bool) (L : Z -> Z) (r : handlers.subscriptionRequest)
         (input : CreateInput),
    handlers.toCreateInput D L r = handlers.Parsed input ->
    ci_ServiceName input = handlers.rq_ServiceName r
    /\ ci_Price input = handlers.rq_Price r
    /\ uuid.Parse D L (handlers.rq_UserID r) = Ok (ci_UserID input)
    /\ month_layout.normal (ci_StartMonth input)
    /\ month_layout.Format (ci_StartMonth input) = handlers.rq_StartDate r
    /\ match ci_EndMonth input with
       | Some e => month_layout.normal e
                   /\ handlers.rq_EndDate r = Some (month_layout.Format e)
       | None => handlers.rq_EndDate r = None
                 \/ handlers.rq_EndDate r = Some EmptyString
       end
    /\ handlers.toUpdateInput D L r
       = handlers.Parsed {| ui_ServiceName := handlers.rq_ServiceName r;
                            ui_Price := handlers.rq_Price r;
                            ui_StartMonth := ci_StartMonth input;
                            ui_EndMonth := ci_EndMonth input |}.
Proof.
  intros D L r input Hin.
  destruct (toCreateInput_Parsed D L r input Hin) as (Hn & Hp & Hu & Hs & He).
  apply month_Format_Parse in Hs as [Hsn Hsf].
  split; [exact Hn|]. split; [exact Hp|]. split; [exact Hu|].
  split; [exact Hsn|]. split; [exact Hsf|]. split.
  - destruct (ci_EndMonth input) as [e|]; [|exact He].
    destruct He as (s & Hr & Hps). apply month_Format_Parse in Hps as [Hen Hef].
    split; [exact Hen|]. now rewrite Hef.
  - unfold handlers.toUpdateInput. rewrite Hin, Hn, Hp. reflexivity.
Qed.

Lemma toCreateInput_accepts_witness :
  handlers.toCreateInput (fun _ => false) (fun r => r)
    {| handlers.rq_ServiceName := "music"; handlers.rq_Price := -5;
       handlers.rq_UserID := Sample.user1; handlers.rq_StartDate := "03-2023";
       handlers.rq_EndDate := Some "01-2023"%string |}
  = handlers.Parsed {| ci_ServiceName := "music"; ci_Price := -5;
                       ci_UserID := Sample.user1;
                       ci_StartMonth := Sample.mar2023;
                       ci_EndMonth := Some Sample.jan2023 |}
  /\ month_layout.normal Sample.mar2023
  /\ month_layout.Format Sample.mar2023 = "03-2023"%string.
Proof.
  assert (handlers.toCreateInput (fun _ => false) (fun r => r)
            {| handlers.rq_ServiceName := "music"; handlers.rq_Price := -5;
               handlers.rq_UserID := Sample.user1; handlers.rq_StartDate := "03-2023";
               handlers.rq_EndDate := Some "01-2023"%string |}
          = handlers.Parsed {| ci_ServiceName := "music"; ci_Price := -5;
                               ci_UserID := Sample.user1;
                               ci_StartMonth := Sample.mar2023;
                               ci_EndMonth := Some Sample.jan2023 |}) as H
    by (vm_compute; reflexivity).
  split; [exact H|].
  pose proof (toCreateInput_accepts _ _ _ _ H) as (_ & _ & _ & Hn & Hf & _).
  split; [exact Hn|exact Hf].
Defined.

(** ** The filters of the query *)

Lemma Atoi_range (s : string) (v : Z) :
  strconv.Atoi s = Some v -> GoInt.in_range v.
Proof.
  unfold strconv.Atoi, GoInt.in_range.
  destruct (match uuid.bytes s with
            | [] => (false, uuid.bytes s)
            | c :: rest =>
                if (c =? 45) || (c =? 43) then (c =? 45, rest)
                else (false, uuid.bytes s)
            end) as [neg digits].
  destruct (length digits =? 0)%nat; [discriminate|].
  destruct (negb _); [discriminate|].
  match goal with
  | |- (if ?b then _ else _) = _ -> _ => destruct b eqn:Hb; [|discriminate]
  end.
  intros [= <-]. apply andb_prop in Hb as [H1 H2].
  apply Z.leb_le in H1, H2. lia.
Qed.

(** One step of a parser of the query: the case of the parameter at the
    head of the goal. *)
Ltac parameter_case :=
  match goal with
  | |- match (if decide ?P then _ else _) with _ => _ end = _ -> _ =>
      destruct (decide P)
  | |- match (match ?x with _ => _ end) with _ => _ end = _ -> _ =>
      destruct x eqn:?
  | |- match (if ?b then _ else _) with _ => _ end = _ -> _ =>
      destruct b eqn:?
  | |- handlers.Invalid _ = handlers.Parsed _ -> _ => discriminate
  end.

Lemma parseListFilter_Parsed (D : Z -> bool) (L : Z -> Z)
    (q : gmap string (list string)) (f : ListFilter) :
  handlers.parseListFilter D L q = handlers.Parsed f ->
  (0 <= Limit f <= GoInt.max_int /\ 0 <= Offset f <= GoInt.max_int)
  /\ (ActivePeriodFrom f = None /\ ActivePeriodTo f = None)
  /\ lf_ServiceName f
     = (if decide (handlers.Get q "service_name" = EmptyString) then None
        else Some (handlers.Get q "service_name"))
  /\ match lf_UserID f with
     | Some u => uuid.Parse D L (handlers.Get q "user_id") = Ok u
     | None => handlers.Get q "user_id" = EmptyString
     end
  /\ match StartMonthFrom f with
     | Some t => month_layout.Parse (handlers.Get q "start_date") = Some t
     | None => handlers.Get q "start_date" = EmptyString
     end
  /\ match StartMonthTo f with
     | Some t => month_layout.Parse (handlers.Get q "end_date") = Some t
     | None => handlers.Get q "end_date" = EmptyString
     end.
Proof.
  unfold handlers.parseListFilter.
  repeat parameter_case; intros [= <-]; cbn [Limit Offset ActivePeriodFrom
    ActivePeriodTo lf_ServiceName lf_UserID StartMonthFrom StartMonthTo];
    repeat match goal with
           | H : strconv.Atoi _ = Some _ |- _ => apply Atoi_range in H
           | H : (_ <? 0) = false |- _ => apply Z.ltb_ge in H
           end;
    unfold GoInt.in_range, GoInt.max_int in *;
    (split; [lia|]); (split; [split; reflexivity|]);
    (split; [reflexivity|]); repeat split; assumption.
Qed.

Lemma parseSummaryFilter_Parsed (D : Z -> bool) (L : Z -> Z)
    (q : gmap string (list string)) (f : SummaryFilter) :
  handlers.parseSummaryFilter D L q = handlers.Parsed f ->
  month_layout.Parse (handlers.Get q "start_date") = Some (PeriodStart f)
  /\ month_layout.Parse (handlers.Get q "end_date") = Some (PeriodEnd f)
  /\ Before (PeriodEnd f) (PeriodStart f) = false
  /\ sf_ServiceName f
     = (if decide (handlers.Get q "service_name" = EmptyString) then None
        else Some (handlers.Get q "service_name"))
  /\ match sf_UserID f with
     | Some u => uuid.Parse D L (handlers.Get q "user_id") = Ok u
     | None => handlers.Get q "user_id" = EmptyString
     end.
Proof.
  unfold handlers.parseSummaryFilter.
  destruct (decide _); [discriminate|].
  destruct (month_layout.Parse (handlers.Get q "start_date")) as [a|]; [|discriminate].
  destruct (month_layout.Parse (handlers.Get q "end_date")) as [b|]; [|discriminate].
  destruct (Before b a) eqn:Hb; [discriminate|].
  destruct (decide (handlers.Get q "user_id" = EmptyString)) as [Hu|Hu].
  - intros [= <-]; simpl. auto.
  - destruct (uuid.Parse D L (handlers.Get q "user_id")) as [u|]; [|discriminate].
    intros [= <-]; simpl. auto.
Qed.

(** What [parseListFilter] accepts.  [Limit] and [Offset] are never
    negative; the filter of the active period is never set; the
    parameters [start_date] and [end_date] bound the start month from
    below and from above, each the first day of a month of the years 0
    to 9999 that is written back as the text of the parameter; an empty
    parameter sets nothing. *)
Theorem parseListFilter_accepts :
  forall (D : Z -> bool) (L : Z -> Z) (q : gmap string (list string))
         (f : ListFilter),
    handlers.parseListFilter D L q = handlers.Parsed f ->
    (0 <= Limit f <= GoInt.max_int /\ 0 <= Offset f <= GoInt.max_int)
    /\ (ActivePeriodFrom f = None /\ ActivePeriodTo f = None)
    /\ (lf_ServiceName f <> Some EmptyString
        /\ (lf_ServiceName f = None
            <-> handlers.Get q "service_name" = EmptyString))
    /\ match lf_UserID f with
       | Some u => uuid.Parse D L (handlers.Get q "user_id") = Ok u
       | None => handlers.Get q "user_id" = EmptyString
       end
    /\ match StartMonthFrom f with
       | Some t => month_layout.normal t
                   /\ month_layout.Format t = handlers.Get q "start_date"
       | None => handlers.Get q "start_date" = EmptyString
       end
    /\ match StartMonthTo f with
       | Some t => month_layout.normal t
                   /\ month_layout.Format t = handlers.Get q "end_date"
       | None => handlers.Get q "end_date" = EmptyString
       end.
Proof.
  intros D L q f Hf.
  destruct (parseListFilter_Parsed D L q f Hf) as (Hl & Ha & Hn & Hu & Hs & He).
  split; [exact Hl|]. split; [exact Ha|]. split.
  { rewrite Hn. destruct (decide (handlers.Get q "service_name" = EmptyString)) as [Hq|Hq].
    - split; [discriminate|]. split; auto.
    - split; [congruence|]. split; [discriminate|contradiction]. }
  split; [exact Hu|]. split.
  - destruct (StartMonthFrom f); [now apply month_Format_Parse|exact Hs].
  - destruct (StartMonthTo f); [now apply month_Format_Parse|exact He].
Qed.

Lemma parseListFilter_accepts_witness :
  handlers.parseListFilter (fun _ => false) (fun r => r)
    {[ "end_date"%string := ["03-2023"%string]; "limit"%string := ["10"%string] ]}
  = handlers.Parsed {| lf_UserID := None; lf_ServiceName := None;
                       StartMonthFrom := None; StartMonthTo := Some Sample.mar2023;
                       ActivePeriodFrom := None; ActivePeriodTo := None;
                       Limit := 10; Offset := 0 |}
  /\ month_layout.Format Sample.mar2023 = "03-2023"%string.
Proof.
  assert (handlers.parseListFilter (fun _ => false) (fun r => r)
            {[ "end_date"%string := ["03-2023"%string]; "limit"%string := ["10"%string] ]}
          = handlers.Parsed {| lf_UserID := None; lf_ServiceName := None;
                               StartMonthFrom := None; StartMonthTo := Some Sample.mar2023;
                               ActivePeriodFrom := None; ActivePeriodTo := None;
                               Limit := 10; Offset := 0 |}) as H
    by (vm_compute; reflexivity).
  split; [exact H|].
  pose proof (parseListFilter_accepts _ _ _ _ H) as (_ & _ & _ & _ & _ & He).
  exact (proj2 He).
Defined.



(** ** Months through the handlers *)





(** What [parseSummaryFilter] accepts.  Both dates are required;
    each is the first day of a month of the years 0 to 9999 and is
    written back as the text of its parameter; the end does not lie in
    an earlier month than the start. *)
Theorem parseSummaryFilter_accepts :
  forall (D : Z -> bool) (L : Z -> Z) (q : gmap string (list string))
         (f : SummaryFilter),
    handlers.parseSummaryFilter D L q = handlers.Parsed f ->
    (month_layout.normal (PeriodStart f)
     /\ month_layout.Format (PeriodStart f) = handlers.Get q "start_date")
    /\ (month_layout.normal (PeriodEnd f)
        /\ month_layout.Format (PeriodEnd f) = handlers.Get q "end_date")
    /\ month_index (PeriodStart f) <= month_index (PeriodEnd f)
    /\ (sf_ServiceName f = None <-> handlers.Get q "service_name" = EmptyString)
    /\ match sf_UserID f with
       | Some u => uuid.Parse D L (handlers.Get q "user_id") = Ok u
       | None => handlers.Get q "user_id" = EmptyString
       end.
Proof.
  intros D L q f Hf.
  destruct (parseSummaryFilter_Parsed D L q f Hf) as (Hs & He & Hb & Hn & Hu).
  apply month_Format_Parse in Hs, He.
  split; [exact Hs|]. split; [exact He|].
  split; [now apply not_Before_index|]. split; [|exact Hu].
  rewrite Hn. destruct (decide (handlers.Get q "service_name" = EmptyString)).
  - split; auto.
  - split; [discriminate|contradiction].
Qed.

Lemma parseSummaryFilter_accepts_witness :
  handlers.parseSummaryFilter (fun _ => false) (fun r => r)
    {[ "start_date"%string := ["01-2023"%string];
       "end_date"%string := ["03-2023"%string] ]}
  = handlers.Parsed (Sample.window Sample.jan2023 Sample.mar2023)
  /\ month_index Sample.jan2023 <= month_index Sample.mar2023.
Proof.
  assert (handlers.parseSummaryFilter (fun _ => false) (fun r => r)
            {[ "start_date"%string := ["01-2023"%string];
               "end_date"%string := ["03-2023"%string] ]}
          = handlers.Parsed (Sample.window Sample.jan2023 Sample.mar2023)) as H
    by (vm_compute; reflexivity).
  split; [exact H|].
  exact (proj1 (proj2 (proj2 (parseSummaryFilter_accepts _ _ _ _ H)))).
Defined.



(** ** What the handlers keep *)

Lemma first_days_rows (st st' : Postgres.Store) :
  Postgres.rows st' = Postgres.rows st -> Stored.first_days st -> Stored.first_days st'.
Proof. unfold Stored.first_days. now intros ->. Qed.

Lemma handleCreate_first_days (D : Z -> bool) (L : Z -> Z)
    (r : handlers.Request) (st : Postgres.Store) :
  Stored.first_days st ->
  Stored.first_days (handlers.after (handlers.handleCreate D L Postgres.Storage r st)).
Proof.
  intros Hst. unfold handlers.handleCreate.
  destruct (handlers.Body r) as [req|]; [|exact Hst].
  destruct (handlers.toCreateInput D L req) as [input|] eqn:Hin; [|exact Hst].
  apply toCreateInput_Parsed in Hin as (_ & _ & _ & Hs & He).
  unfold Service.Create. cbn [CreateSubscription Postgres.Storage].
  rewrite Create_eval.
  destruct (Postgres.check_row (Stored.row_of input)); [exact Hst|].
  destruct (Postgres.rows st !! Stored.next_id st); [exact Hst|].
  cbn [res store handlers.after]. unfold Stored.first_days. cbn [Postgres.rows].
  apply map_Forall_insert_2; [|exact Hst].
  cbn [Stored.row_of Postgres.start_month Postgres.end_month].
  apply month_Format_Parse in Hs as [[Hs _] _]. split; [exact Hs|].
  destruct (ci_EndMonth input) as [e|]; [|exact I].
  destruct He as (s & _ & He). now apply month_Format_Parse in He as [[He _] _].
Qed.

Lemma handleUpdate_first_days (D : Z -> bool) (L : Z -> Z)
    (r : handlers.Request) (id : UUID) (st : Postgres.Store) :
  Stored.first_days st ->
  Stored.first_days (handlers.after (handlers.handleUpdate D L Postgres.Storage r id st)).
Proof.
  intros Hst. unfold handlers.handleUpdate.
  destruct (handlers.Body r) as [req|]; [|exact Hst].
  destruct (handlers.toUpdateInput D L req) as [input|] eqn:Hin; [|exact Hst].
  apply toUpdateInput_Parsed in Hin as (c & Hc & ->).
  apply toCreateInput_Parsed in Hc as (_ & _ & _ & Hs & He).
  rewrite Update_eval.
  destruct (Postgres.rows st !! id) as [old|]; [|exact Hst].
  destruct (Postgres.check_row _) as [e|].
  - cbn [res]. destruct (errors_Is _ _); exact Hst.
  - cbn [res store handlers.after]. unfold Stored.first_days, Postgres.with_rows.
    cbn [Postgres.rows].
    apply map_Forall_insert_2; [|exact Hst].
    cbn [Postgres.assign Postgres.start_month Postgres.end_month ui_StartMonth ui_EndMonth].
    apply month_Format_Parse in Hs as [[Hs _] _]. split; [exact Hs|].
    destruct (ci_EndMonth c) as [e|]; [|exact I].
    destruct He as (s & _ & He). now apply month_Format_Parse in He as [[He _] _].
Qed.

Lemma handleDelete_first_days (id : UUID) (st : Postgres.Store) :
  Stored.first_days st ->
  Stored.first_days (handlers.after (handlers.handleDelete Postgres.Storage id st)).
Proof.
  intros Hst. unfold handlers.handleDelete. rewrite Delete_eval.
  destruct (Postgres.rows st !! id); [|exact Hst].
  cbn [res store handlers.after]. unfold Stored.first_days, Postgres.with_rows.
  cbn [Postgres.rows]. now apply map_Forall_delete.
Qed.

Lemma handleGet_after (id : UUID) (st : Postgres.Store) :
  handlers.after (handlers.handleGet Postgres.Storage id st) = st.
Proof.
  unfold handlers.handleGet, Service.Get. cbn [GetSubscription Postgres.Storage].
  rewrite GetSubscription_eval.
  destruct (Postgres.rows st !! id); reflexivity.
Qed.

Lemma handleList_after (D : Z -> bool) (L : Z -> Z)
    (r : handlers.Request) (st : Postgres.Store) :
  handlers.after (handlers.handleList D L Postgres.Storage r st) = st.
Proof.
  unfold handlers.handleList.
  destruct (handlers.parseListFilter D L (handlers.Query r)); [|reflexivity].
  unfold Service.List. cbn [ListSubscriptions Postgres.Storage].
  now rewrite ListSubscriptions_eval.
Qed.

Lemma handleSummary_after (D : Z -> bool) (L : Z -> Z)
    (r : handlers.Request) (st : Postgres.Store) :
  handlers.after (handlers.handleSummary D L Postgres.Storage r st) = st.
Proof.
  unfold handlers.handleSummary.
  destruct (negb _); [reflexivity|].
  destruct (handlers.parseSummaryFilter D L (handlers.Query r)) as [f|]; [|reflexivity].
  now rewrite (Sum_result Postgres.Storage f st st _
                 (ListSubscriptions_eval (Service.sum_filter f) st)).
Qed.

(** The dates of the table stay first days of months.  Whatever
    the request, each of the three routes leaves a table whose dates
    are all first days of their months in such a state; the summary
    route changes nothing at all. *)
Theorem handlers_keep_first_days :
  forall (D : Z -> bool) (L : Z -> Z) (r : handlers.Request)
         (st : Postgres.Store),
    Stored.first_days st ->
    Stored.first_days
      (handlers.after (handlers.handleBase D L Postgres.Storage r st))
    /\ Stored.first_days
         (handlers.after (handlers.handleWithID D L Postgres.Storage r st))
    /\ handlers.after (handlers.handleSummary D L Postgres.Storage r st) = st.
Proof.
  intros D L r st Hst. split; [|split].
  - unfold handlers.handleBase.
    destruct (String.eqb (handlers.Method r) "POST");
      [exact (handleCreate_first_days D L r st Hst)|].
    destruct (String.eqb (handlers.Method r) "GET"); [|exact Hst].
    cbn [handlers.prepend handlers.after]. now rewrite handleList_after.
  - unfold handlers.handleWithID.
    destruct (decide _); [exact Hst|].
    destruct (uuid.Parse D L _) as [id|]; [|exact Hst].
    destruct (String.eqb (handlers.Method r) "GET").
    { cbn [handlers.prepend handlers.after]. now rewrite handleGet_after. }
    destruct (String.eqb (handlers.Method r) "PUT");
      [exact (handleUpdate_first_days D L r id st Hst)|].
    destruct (String.eqb (handlers.Method r) "DELETE");
      [exact (handleDelete_first_days id st Hst)|exact Hst].
  - apply handleSummary_after.
Qed.

Lemma handlers_keep_first_days_witness :
  Stored.first_days Stored.empty
  /\ Stored.first_days
       (handlers.after
          (handlers.handleBase (fun _ => false) (fun r => r) Postgres.Storage
             {| handlers.Method := "POST"; handlers.Path := handlers.basePath;
                handlers.Query := ∅;
                handlers.Body :=
                  Some {| handlers.rq_ServiceName := "music";
                          handlers.rq_Price := 100;
                          handlers.rq_UserID := Sample.user1;
                          handlers.rq_StartDate := "01-2023";
                          handlers.rq_EndDate := None |} |}
             Stored.empty)).
Proof.
  assert (Stored.first_days Stored.empty) as H by apply map_Forall_empty.
  split; [exact H|].
  exact (proj1 (handlers_keep_first_days (fun _ => false) (fun r => r) _
                  Stored.empty H)).
Defined.

(** ** Statuses, for any repository *)

Section AnyRepository.

Context {St : Type} (repo : Repository St).
Variable D : Z -> bool.
Variable L : Z -> Z.

Lemma handleCreate_status (r : handlers.Request) (st : St) :
  let rp := handlers.handleCreate D L repo r st in
  In (handlers.status (handlers.response rp)) [201; 400; 500]
  /\ (handlers.status (handlers.response rp) = 400 -> handlers.after rp = st).
Proof.
  unfold handlers.handleCreate.
  destruct (handlers.Body r) as [req|]; [|simpl; auto].
  destruct (handlers.toCreateInput D L req) as [input|]; [|simpl; auto].
  unfold Service.Create.
  destruct (CreateSubscription repo input st) as [[sub|err] st']; simpl;
    (split; [auto|discriminate]).
Qed.

Lemma handleList_status (r : handlers.Request) (st : St) :
  let rp := handlers.handleList D L repo r st in
  In (handlers.status (handlers.response rp)) [200; 400; 500]
  /\ (handlers.status (handlers.response rp) = 400 -> handlers.after rp = st).
Proof.
  unfold handlers.handleList.
  destruct (handlers.parseListFilter D L (handlers.Query r)) as [f|]; [|simpl; auto].
  unfold Service.List.
  destruct (ListSubscriptions repo f st) as [[subs|err] st']; simpl;
    (split; [auto|discriminate]).
Qed.

Lemma handleGet_status (id : UUID) (st : St) :
  let rp := handlers.handleGet repo id st in
  In (handlers.status (handlers.response rp)) [200; 404; 500].
Proof.
  unfold handlers.handleGet, Service.Get.
  destruct (GetSubscription repo id st) as [[sub|err] st']; simpl; [auto|].
  destruct (errors_Is err ErrNotFound); simpl; auto.
Qed.

Lemma handleUpdate_status (r : handlers.Request) (id : UUID) (st : St) :
  let rp := handlers.handleUpdate D L repo r id st in
  In (handlers.status (handlers.response rp)) [200; 400; 404; 500]
  /\ (handlers.status (handlers.response rp) = 400 -> handlers.after rp = st).
Proof.
  unfold handlers.handleUpdate.
  destruct (handlers.Body r) as [req|]; [|simpl; auto].
  destruct (handlers.toUpdateInput D L req) as [input|]; [|simpl; auto].
  unfold Service.Update.
  destruct (UpdateSubscription repo id input st) as [[sub|err] st']; simpl;
    [split; [auto|discriminate]|].
  destruct (errors_Is err ErrNotFound); simpl; (split; [auto 6|discriminate]).
Qed.

Lemma handleDelete_status (id : UUID) (st : St) :
  let rp := handlers.handleDelete repo id st in
  In (handlers.status (handlers.response rp)) [204; 404; 500].
Proof.
  unfold handlers.handleDelete, Service.Delete.
  destruct (DeleteSubscription repo id st) as [[[]|err] st']; simpl; [auto|].
  destruct (errors_Is err ErrNotFound); simpl; auto.
Qed.

End AnyRepository.

(** The statuses of the routes, for any repository.  The base
    route answers 200, 201, 400, 405 or 500; the route of one
    subscription 200, 204, 400, 404, 405 or 500; the summary route 200,
    400, 405 or 500.  A request answered 400 or 405 has not reached the
    repository: the store is the one the request found. *)
Theorem rejected_requests_keep_store :
  forall {St : Type} (repo : Repository St) (D : Z -> bool) (L : Z -> Z)
         (r : handlers.Request) (st : St),
    (In (handlers.status (handlers.response (handlers.handleBase D L repo r st)))
        [200; 201; 400; 405; 500]
     /\ In (handlers.status (handlers.response (handlers.handleWithID D L repo r st)))
          [200; 204; 400; 404; 405; 500]
     /\ In (handlers.status (handlers.response (handlers.handleSummary D L repo r st)))
          [200; 400; 405; 500])
    /\ (In (handlers.status (handlers.response (handlers.handleBase D L repo r st)))
           [400; 405] ->
        handlers.after (handlers.handleBase D L repo r st) = st)
    /\ (In (handlers.status (handlers.response (handlers.handleWithID D L repo r st)))
           [400; 405] ->
        handlers.after (handlers.handleWithID D L repo r st) = st)
    /\ (In (handlers.status (handlers.response (handlers.handleSummary D L repo r st)))
           [400; 405] ->
        handlers.after (handlers.handleSummary D L repo r st) = st).
Proof.
  intros St repo D L r st.
  assert (Hbase :
    In (handlers.status (handlers.response (handlers.handleBase D L repo r st)))
       [200; 201; 400; 405; 500]
    /\ (In (handlers.status (handlers.response (handlers.handleBase D L repo r st)))
           [400; 405] -> handlers.after (handlers.handleBase D L repo r st) = st)).
  { unfold handlers.handleBase.
    destruct (String.eqb (handlers.Method r) "POST").
    - destruct (handleCreate_status repo D L r st) as [Hin Hst].
      cbn [handlers.prepend handlers.response handlers.after].
      split.
      + simpl in Hin |- *. intuition.
      + intros Hs. simpl in Hin, Hs. apply Hst. intuition; try lia.
    - destruct (String.eqb (handlers.Method r) "GET").
      + destruct (handleList_status repo D L r st) as [Hin Hst].
        cbn [handlers.prepend handlers.response handlers.after].
        split.
        * simpl in Hin |- *. intuition.
        * intros Hs. simpl in Hin, Hs. apply Hst. intuition; try lia.
      + simpl. auto 6. }
  assert (Hid :
    In (handlers.status (handlers.response (handlers.handleWithID D L repo r st)))
       [200; 204; 400; 404; 405; 500]
    /\ (In (handlers.status (handlers.response (handlers.handleWithID D L repo r st)))
           [400; 405] -> handlers.after (handlers.handleWithID D L repo r st) = st)).
  { unfold handlers.handleWithID.
    destruct (decide _); [simpl; auto 6|].
    destruct (uuid.Parse D L _) as [id|]; [|simpl; auto 6].
    destruct (String.eqb (handlers.Method r) "GET").
    { pose proof (handleGet_status repo id st) as Hin.
      cbn [handlers.prepend handlers.response handlers.after].
      split.
      - simpl in Hin |- *. intuition.
      - intros Hs. simpl in Hin, Hs. exfalso. intuition; lia. }
    destruct (String.eqb (handlers.Method r) "PUT").
    { destruct (handleUpdate_status repo D L r id st) as [Hin Hst].
      cbn [handlers.prepend handlers.response handlers.after].
      split.
      - simpl in Hin |- *. intuition.
      - intros Hs. simpl in Hin, Hs. apply Hst. intuition; try lia. }
    destruct (String.eqb (handlers.Method r) "DELETE").
    { pose proof (handleDelete_status repo id st) as Hin.
      cbn [handlers.prepend handlers.response handlers.after].
      split.
      - simpl in Hin |- *. intuition.
      - intros Hs. simpl in Hin, Hs. exfalso. intuition; lia. }
    simpl. auto 7. }
  assert (Hsum :
    In (handlers.status (handlers.response (handlers.handleSummary D L repo r st)))
       [200; 400; 405; 500]
    /\ (In (handlers.status (handlers.response (handlers.handleSummary D L repo r st)))
           [400; 405] -> handlers.after (handlers.handleSummary D L repo r st) = st)).
  { unfold handlers.handleSummary.
    destruct (negb _); [simpl; auto|].
    destruct (handlers.parseSummaryFilter D L (handlers.Query r)) as [f|];
      [|simpl; auto].
    unfold Service.Sum.
    destruct (ListSubscriptions repo (Service.sum_filter f) st) as [[subs|err] st'];
      simpl; (split; [auto|intros Hs; exfalso; intuition; lia]). }
  tauto.
Qed.

Lemma rejected_requests_keep_store_witness :
  handlers.after
    (handlers.handleWithID (fun _ => false) (fun r => r) Postgres.Storage
       {| handlers.Method := "DELETE";
          handlers.Path := "/api/v1/subscriptions/not-a-uuid";
          handlers.Query := ∅; handlers.Body := None |}
       (Sample.store {[ Sample.id1 := Sample.row 100 Sample.jan2023 None ]}))
  = Sample.store {[ Sample.id1 := Sample.row 100 Sample.jan2023 None ]}.
Proof.
  apply (proj1 (proj2 (proj2 (rejected_requests_keep_store Postgres.Storage
                  (fun _ => false) (fun r => r)
                  {| handlers.Method := "DELETE";
                     handlers.Path := "/api/v1/subscriptions/not-a-uuid";
                     handlers.Query := ∅; handlers.Body := None |}
                  (Sample.store {[ Sample.id1 := Sample.row 100 Sample.jan2023 None ]}))))).
  vm_compute. auto.
Defined.

(** Not found, for any repository.  The routes that name one
    subscription answer 404 exactly when the repository returned an
    error that is [ErrNotFound] or wraps it, 500 exactly when it
    returned another error, and 200 (204 for a deletion) exactly when
    it returned no error. *)
Theorem not_found_iff_repository_says_so :
  forall {St : Type} (repo : Repository St) (id : UUID) (st : St),
    let get := handlers.status (handlers.response (handlers.handleGet repo id st)) in
    let del := handlers.status (handlers.response (handlers.handleDelete repo id st)) in
    ((get = 404 <-> exists err, (GetSubscription repo id st).1 = Err err
                                /\ errors_Is err ErrNotFound = true)
     /\ (get = 500 <-> exists err, (GetSubscription repo id st).1 = Err err
                                   /\ errors_Is err ErrNotFound = false)
     /\ (get = 200 <-> exists sub, (GetSubscription repo id st).1 = Ok sub))
    /\ ((del = 404 <-> exists err, (DeleteSubscription repo id st).1 = Err err
                                   /\ errors_Is err ErrNotFound = true)
        /\ (del = 500 <-> exists err, (DeleteSubscription repo id st).1 = Err err
                                      /\ errors_Is err ErrNotFound = false)
        /\ (del = 204 <-> exists u, (DeleteSubscription repo id st).1 = Ok u)).
Proof.
  intros St repo id st. cbv zeta.
  unfold handlers.handleGet, handlers.handleDelete, Service.Get, Service.Delete.
  split.
  - destruct (GetSubscription repo id st) as [[sub|err] st']; cbn [fst res].
    + cbn. repeat split; try discriminate; eauto;
        intros (err & [=] & _).
    + destruct (errors_Is err ErrNotFound) eqn:His; cbn;
        repeat split; try discriminate; eauto;
        try (intros (e & [= <-] & He); congruence);
        intros (s & [=]).
  - destruct (DeleteSubscription repo id st) as [[u|err] st']; cbn [fst res].
    + cbn. repeat split; try discriminate; eauto;
        intros (err & [=] & _).
    + destruct (errors_Is err ErrNotFound) eqn:His; cbn;
        repeat split; try discriminate; eauto;
        try (intros (e & [= <-] & He); congruence);
        intros (s & [=]).
Qed.

(** ** Requests in sequence, on the storage adapter *)

(** The route of one subscription, for a path that ends in a canonical
    uuid text. *)
Lemma handleWithID_canonical (D : Z -> bool) (L : Z -> Z) (r : handlers.Request)
    (id : UUID) (st : Postgres.Store) :
  uuid_sql.canonical id ->
  handlers.Path r = String.append (String.append handlers.basePath "/") id ->
  handlers.handleWithID D L Postgres.Storage r st
  = if String.eqb (handlers.Method r) "GET"
    then handlers.prepend [handlers.debug "handling request with subscription id"]
           (handlers.handleGet Postgres.Storage id st)
    else if String.eqb (handlers.Method r) "PUT"
    then handlers.prepend [handlers.debug "handling request with subscription id"]
           (handlers.handleUpdate D L Postgres.Storage r id st)
    else if String.eqb (handlers.Method r) "DELETE"
    then handlers.prepend [handlers.debug "handling request with subscription id"]
           (handlers.handleDelete Postgres.Storage id st)
    else {| handlers.response := {| handlers.status := 405;
                                    handlers.written := handlers.NoBody |};
            handlers.after := st;
            handlers.recorded :=
              [handlers.debug "handling request with subscription id";
               warn "method not allowed"] |}.
Proof.
  intros Hc Hp. unfold handlers.handleWithID.
  rewrite Hp, TrimPrefix_app. cbv zeta.
  destruct (decide _) as [He|_]; [now apply canonical_nonempty in He|].
  rewrite (canonical_Parse D L id Hc). reflexivity.
Qed.

Lemma handleGet_response (id : UUID) (st : Postgres.Store) :
  handlers.response (handlers.handleGet Postgres.Storage id st)
  = match Postgres.rows st !! id with
    | Some row =>
        {| handlers.status := 200;
           handlers.written :=
             handlers.JSONSubscription
               (handlers.subscriptionResponseFromDomain (Postgres.scan id row)) |}
    | None => {| handlers.status := 404;
                 handlers.written := handlers.Text "subscription not found" |}
    end.
Proof.
  unfold handlers.handleGet, Service.Get. cbn [GetSubscription Postgres.Storage].
  rewrite GetSubscription_eval.
  destruct (Postgres.rows st !! id); reflexivity.
Qed.

(** DELETE, then GET.  For a path that ends in a canonical uuid
    text, DELETE answers 204 when the table holds a row of that id and
    404 when it does not, never 500; it removes that row and no other;
    GET of the same path afterwards answers 404. *)
Theorem delete_then_get :
  forall (D : Z -> bool) (L : Z -> Z) (del get : handlers.Request)
         (id : UUID) (st : Postgres.Store),
    uuid_sql.canonical id ->
    handlers.Path del = String.append (String.append handlers.basePath "/") id ->
    handlers.Path get = handlers.Path del ->
    handlers.Method del = "DELETE"%string ->
    handlers.Method get = "GET"%string ->
    let deleted := handlers.handleWithID D L Postgres.Storage del st in
    handlers.status (handlers.response deleted)
    = match Postgres.rows st !! id with Some _ => 204 | None => 404 end
    /\ Postgres.rows (handlers.after deleted) = delete id (Postgres.rows st)
    /\ handlers.response
         (handlers.handleWithID D L Postgres.Storage get (handlers.after deleted))
       = {| handlers.status := 404;
            handlers.written := handlers.Text "subscription not found" |}.
Proof.
  intros D L del get id st Hc Hp Hg Hmd Hmg. cbv zeta.
  rewrite Hp in Hg.
  rewrite (handleWithID_canonical D L del id st Hc Hp), Hmd.
  rewrite (handleWithID_canonical D L get id _ Hc Hg), Hmg.
  cbn [String.eqb Ascii.eqb Bool.eqb handlers.prepend handlers.response handlers.after].
  rewrite handleGet_response.
  unfold handlers.handleDelete. rewrite Delete_eval.
  destruct (Postgres.rows st !! id) as [row|] eqn:Hrow;
    cbn [res store handlers.response handlers.after handlers.status
         Postgres.with_rows Postgres.rows].
  - rewrite lookup_delete_eq. auto.
  - change (errors_Is ErrNotFound ErrNotFound) with true.
    cbn [handlers.response handlers.after handlers.status handlers.Error].
    rewrite delete_id by exact Hrow. rewrite Hrow. auto.
Qed.

Lemma delete_then_get_witness :
  handlers.status
    (handlers.response
       (handlers.handleWithID (fun _ => false) (fun r => r) Postgres.Storage
          {| handlers.Method := "DELETE";
             handlers.Path := "/api/v1/subscriptions/11111111-1111-1111-1111-111111111111";
             handlers.Query := ∅; handlers.Body := None |}
          (Sample.store {[ Sample.id1 := Sample.row 100 Sample.jan2023 None ]})))
  = 204.
Proof.
  refine (proj1 (delete_then_get (fun _ => false) (fun r => r)
    {| handlers.Method := "DELETE";
       handlers.Path := "/api/v1/subscriptions/11111111-1111-1111-1111-111111111111";
       handlers.Query := ∅; handlers.Body := None |}
    {| handlers.Method := "GET";
       handlers.Path := "/api/v1/subscriptions/11111111-1111-1111-1111-111111111111";
       handlers.Query := ∅; handlers.Body := None |}
    Sample.id1
    (Sample.store {[ Sample.id1 := Sample.row 100 Sample.jan2023 None ]})
    _ eq_refl eq_refl eq_refl eq_refl)).
  split; reflexivity.
Defined.



(** ** Values that the table rejects *)

Lemma check_row_rejects (r : Postgres.Row) :
  (Postgres.price r < 0
   \/ exists e, Postgres.end_month r = Some e
                /\ Before e (Postgres.start_month r) = true) ->
  exists msg, Postgres.check_row r = Some (PqError msg).
Proof.
  intros Hbad. unfold Postgres.check_row.
  destruct (negb (Postgres.int4_ok _)); [eauto|].
  destruct (negb (Postgres.date_ok _)); [eauto|].
  destruct (negb _); [eauto|].
  destruct (Z.leb_spec 0 (Postgres.price r)); cbn [negb]; [|eauto].
  destruct Hbad as [Hp|(e & He & Hb)]; [lia|].
  rewrite He, Hb. eauto.
Qed.

(** Values that the table rejects are answered 500.  Neither
    [toCreateInput] nor a handler checks the price or the order of the
    two months: a request that is accepted with a negative price, or
    with an end month before its start month, reaches the table, whose
    checks fail; POST then answers 500 and stores no row, and so does
    PUT for an id that the table holds, leaving the store as it was. *)
Theorem rejected_values_answer_500 :
  forall (D : Z -> bool) (L : Z -> Z) (r : handlers.Request)
         (req : handlers.subscriptionRequest) (input : CreateInput)
         (st : Postgres.Store),
    handlers.Body r = Some req ->
    handlers.toCreateInput D L req = handlers.Parsed input ->
    (ci_Price input < 0
     \/ exists e, ci_EndMonth input = Some e
                  /\ Before e (ci_StartMonth input) = true) ->
    (handlers.response (handlers.handleCreate D L Postgres.Storage r st)
     = handlers.Error "failed to create subscription" 500
     /\ Postgres.rows (handlers.after (handlers.handleCreate D L Postgres.Storage r st))
        = Postgres.rows st)
    /\ forall id : UUID,
         Postgres.rows st !! id <> None ->
         handlers.response (handlers.handleUpdate D L Postgres.Storage r id st)
         = handlers.Error "failed to update subscription" 500
         /\ handlers.after (handlers.handleUpdate D L Postgres.Storage r id st) = st.
Proof.
  intros D L r req input st Hb Hin Hbad. split.
  - destruct (check_row_rejects (Stored.row_of input) Hbad) as [msg Hck].
    unfold handlers.handleCreate. rewrite Hb, Hin.
    unfold Service.Create. cbn [CreateSubscription Postgres.Storage].
    rewrite Create_eval, Hck. split; reflexivity.
  - intros id Hid.
    destruct (Postgres.rows st !! id) as [old|] eqn:Hold; [|contradiction].
    unfold handlers.handleUpdate. rewrite Hb.
    unfold handlers.toUpdateInput. rewrite Hin.
    rewrite Update_eval, Hold.
    destruct (check_row_rejects
                (Postgres.assign old
                   {| ui_ServiceName := ci_ServiceName input;
                      ui_Price := ci_Price input;
                      ui_StartMonth := ci_StartMonth input;
                      ui_EndMonth := ci_EndMonth input |}) Hbad) as [msg Hck].
    rewrite Hck. split; reflexivity.
Qed.

Lemma rejected_values_answer_500_witness :
  handlers.response
    (handlers.handleCreate (fun _ => false) (fun r => r) Postgres.Storage
       {| handlers.Method := "POST"; handlers.Path := handlers.basePath;
          handlers.Query := ∅;
          handlers.Body :=
            Some {| handlers.rq_ServiceName := "music"; handlers.rq_Price := -5;
                    handlers.rq_UserID := Sample.user1;
                    handlers.rq_StartDate := "01-2023";
                    handlers.rq_EndDate := None |} |}
       Stored.empty)
  = handlers.Error "failed to create subscription" 500.
Proof.
  refine (proj1 (proj1 (rejected_values_answer_500 (fun _ => false) (fun r => r)
    {| handlers.Method := "POST"; handlers.Path := handlers.basePath;
       handlers.Query := ∅;
       handlers.Body :=
         Some {| handlers.rq_ServiceName := "music"; handlers.rq_Price := -5;
                 handlers.rq_UserID := Sample.user1;
                 handlers.rq_StartDate := "01-2023";
                 handlers.rq_EndDate := None |} |}
    _
    {| ci_ServiceName := "music"; ci_Price := -5; ci_UserID := Sample.user1;
       ci_StartMonth := Sample.jan2023; ci_EndMonth := None |}
    Stored.empty eq_refl _ _))).
  - vm_compute. reflexivity.
  - left. simpl. lia.
Defined.

(** ** The migrator *)

Lemma string_leb_trans (a b c : string) :
  String.leb a b = true -> String.leb b c = true -> String.leb a c = true.
Proof.
  unfold String.leb. revert b c.
  induction a as [|x a IH]; intros [|y b] [|z c]; simpl; try congruence.
  unfold Ascii.compare.
  destruct (N.compare_spec (N_of_ascii x) (N_of_ascii y)) as [Hxy|Hxy|Hxy];
    destruct (N.compare_spec (N_of_ascii y) (N_of_ascii z)) as [Hyz|Hyz|Hyz];
    destruct (N.compare_spec (N_of_ascii x) (N_of_ascii z)) as [Hxz|Hxz|Hxz];
    try congruence; try lia; try (intros; exact eq_refl).
  apply IH.
Qed.

Lemma name_le_transitive : Transitive migrator.name_le.
Proof. intros a b c. apply string_leb_trans. Qed.

Lemma name_le_total : Total migrator.name_le.
Proof. intros a b. apply String.leb_total. Qed.

Lemma entry_le_transitive : Transitive migrator.entry_le.
Proof. intros a b c. apply string_leb_trans. Qed.

Lemma entry_le_total : Total migrator.entry_le.
Proof. intros a b. apply String.leb_total. Qed.

Lemma elem_of_collect (l : list (string * migrator.node)) (f : string) :
  f ∈ migrator.collect l
  <-> exists c, (f, migrator.File c) ∈ l /\ migrator.HasSuffix f ".up.sql" = true.
Proof.
  induction l as [|[name [|c]] l IH]; simpl.
  - split; [intros H; inversion H|intros (c & H & _); inversion H].
  - rewrite IH. split.
    + intros (c & Hin & Hs). exists c. split; [now right|exact Hs].
    + intros (c & Hin & Hs). exists c. split; [|exact Hs].
      apply elem_of_cons in Hin as [[=]|Hin]; exact Hin.
  - destruct (migrator.HasSuffix name ".up.sql") eqn:Hname.
    + rewrite elem_of_cons, IH. split.
      * intros [->|(c' & Hin & Hs)]; [exists c; split; [left|exact Hname]|].
        exists c'. split; [now right|exact Hs].
      * intros (c' & Hin & Hs).
        apply elem_of_cons in Hin as [[= -> ->]|Hin]; [now left|right; eauto].
    + rewrite IH. split.
      * intros (c' & Hin & Hs). exists c'. split; [now right|exact Hs].
      * intros (c' & Hin & Hs).
        apply elem_of_cons in Hin as [[= -> ->]|Hin]; [congruence|eauto].
Qed.

Lemma collect_sublist (l : list (string * migrator.node)) :
  sublist (migrator.collect l) (l.*1).
Proof.
  induction l as [|[name [|c]] l IH]; simpl; [constructor|now constructor|].
  destruct (migrator.HasSuffix name ".up.sql"); now constructor.
Qed.

Lemma files_of_Permutation (d : gmap string migrator.node) :
  migrator.files_of d ≡ₚ migrator.collect (migrator.ReadDir d).
Proof. unfold migrator.files_of, migrator.sort_Strings. apply merge_sort_Permutation. Qed.

Lemma elem_of_files_of (d : gmap string migrator.node) (f : string) :
  f ∈ migrator.files_of d
  <-> exists c, d !! f = Some (migrator.File c)
                /\ migrator.HasSuffix f ".up.sql" = true.
Proof.
  rewrite files_of_Permutation, elem_of_collect.
  unfold migrator.ReadDir.
  split; intros (c & Hin & Hs); exists c; (split; [|exact Hs]).
  - rewrite merge_sort_Permutation in Hin. now apply elem_of_map_to_list.
  - rewrite merge_sort_Permutation. now apply elem_of_map_to_list.
Qed.

Lemma files_of_NoDup (d : gmap string migrator.node) : NoDup (migrator.files_of d).
Proof.
  rewrite files_of_Permutation.
  apply (sublist_NoDup _ ((migrator.ReadDir d).*1)); [|apply collect_sublist].
  unfold migrator.ReadDir. rewrite merge_sort_Permutation.
  apply NoDup_fst_map_to_list.
Qed.

Lemma files_of_sorted (d : gmap string migrator.node) :
  StronglySorted migrator.name_le (migrator.files_of d).
Proof.
  unfold migrator.files_of, migrator.sort_Strings.
  apply (@StronglySorted_merge_sort _ migrator.name_le _
           name_le_transitive name_le_total).
Qed.

Section Migrations.

Context {Rest : Type}.
Variable exec : string -> Rest -> option error * Rest.
Variable d : gmap string migrator.node.
Variable applied : gset string.




End Migrations.


(** The migration files.  The files that [runMigrations] goes
    through are the regular files of the directory whose names end in
    [".up.sql"], each once, in ascending order of their names, byte by
    byte; subdirectories and other files are left out. *)
Theorem migration_files_sorted :
  forall d : gmap string migrator.node,
    StronglySorted migrator.name_le (migrator.files_of d)
    /\ NoDup (migrator.files_of d)
    /\ forall f : string,
         f ∈ migrator.files_of d
         <-> exists c, d !! f = Some (migrator.File c)
                       /\ migrator.HasSuffix f ".up.sql" = true.
Proof.
  intros d. split; [apply files_of_sorted|].
  split; [apply files_of_NoDup|apply elem_of_files_of].
Qed.





(** *** A migration that fails *)







Section Failing.

Context {Rest : Type}.
Variable exec : string -> Rest -> option error * Rest.
Variable d : gmap string migrator.node.
Variable applied : gset string.


End Failing.


